(** * BioMonteCarlo: layered mesh, photon, Henyey-Greenstein sampler and
      Monte Carlo driver, embedded over the real numbers.

    Python floats are read as real numbers ([R]); rounding is outside the
    model.  Where a float computation leaves the reals (a logarithm of 0, a
    numpy division by 0, an arc cosine outside [-1, 1]) the program goes on
    with [inf] or [nan]; the model does not follow it there and ends with
    [NonFinite], which says only that the program has left the finite
    numbers.  Rounding can do the same where the exact value stays inside:
    module [Doubles] evaluates the sampler's cosine in binary64 for that
    case.  The global numpy random stream is threaded explicitly as the
    list of the uniform draws still to come. *)

From Stdlib Require Import Reals Lra Lia ZArith PrimFloat.
From stdpp Require Import gmap strings list.
From Equations Require Import Equations.

Open Scope R_scope.

(** ** Decidable comparisons on floats *)

#[global] Instance Rlt_decision (x y : R) : Decision (x < y) := Rlt_dec x y.
#[global] Instance Rle_decision (x y : R) : Decision (x <= y) := Rle_dec x y.
#[global] Instance Rgt_decision (x y : R) : Decision (x > y) := Rgt_dec x y.
#[global] Instance Req_decision : EqDecision R := Req_dec_T.

(** ** Outcomes of a Python computation *)

Inductive exn : Set := IndexError | KeyError | ValueError | ZeroDivisionError.

Inductive outcome (A : Type) : Type :=
| Ok (a : A)        (* normal completion *)
| Raise (e : exn)   (* an exception propagates to the caller *)
| NonFinite         (* a float became inf or nan *)
| NoMoreDraws.      (* the supplied draws of the random stream are used up *)

Arguments Ok {A} a.
Arguments Raise {A} e.
Arguments NonFinite {A}.
Arguments NoMoreDraws {A}.

(** Sequencing: the first outcome that is not [Ok] ends the computation. *)
#[global] Instance outcome_bind : MBind outcome := fun A B k c =>
  match c with
  | Ok a => k a
  | Raise e => Raise e
  | NonFinite => NonFinite
  | NoMoreDraws => NoMoreDraws
  end.

(** Python sequence indexing [l[i]]: negative indices count from the end. *)
Definition py_index {A} (l : list A) (i : Z) : outcome A :=
  let n := Z.of_nat (length l) in
  let j := if (i <? 0)%Z then (n + i)%Z else i in
  if ((0 <=? j)%Z && (j <? n)%Z)%bool then
    match l !! Z.to_nat j with
    | Some a => Ok a
    | None => Raise IndexError
    end
  else Raise IndexError.

(** Python item assignment [l[i] = x] on a list or a numpy array. *)
Definition py_setitem {A} (l : list A) (i : Z) (x : A) : outcome (list A) :=
  let n := Z.of_nat (length l) in
  let j := if (i <? 0)%Z then (n + i)%Z else i in
  if ((0 <=? j)%Z && (j <? n)%Z)%bool then Ok (<[Z.to_nat j := x]> l)
  else Raise IndexError.

(** Dictionary subscript [d[key]]. *)
Definition py_getitem (d : gmap string R) (key : string) : outcome R :=
  match d !! key with
  | Some v => Ok v
  | None => Raise KeyError
  end.

(** ** mesh.py *)

Module Mesh.

Record LayeredMesh : Type := {
  _layer_boundaries : list R;
  _layer_properties : list (gmap string R)
}.

(** [LayeredMesh.__init__] *)
Definition init : LayeredMesh :=
  {| _layer_boundaries := []; _layer_properties := [] |}.

Definition required_keys : list string := ["n"; "mu_s"; "mu_a"; "g"]%string.

Definition has_key (properties : gmap string R) (key : string) : bool :=
  bool_decide (is_Some (properties !! key)).

(** [LayeredMesh.add_layer]: the outcome of the call and the mesh object as
    it is left by the call. *)
Definition add_layer (self : LayeredMesh) (boundary : R)
    (properties : gmap string R) : outcome unit * LayeredMesh :=
  if ((0 <? length (_layer_boundaries self))%nat
      && bool_decide (boundary <= List.last (_layer_boundaries self) 0))%bool
  then (Raise ValueError, self)
  else if negb (forallb (has_key properties) required_keys)
  then (Raise ValueError, self)
  else
    (Ok tt,
     {| _layer_boundaries :=
          if (length (_layer_boundaries self) =? 0)%nat then [boundary]
          else _layer_boundaries self ++ [boundary];
        _layer_properties := _layer_properties self ++ [properties] |}).

(** [np.searchsorted(a, z, side='right')]: numpy's binary search, which
    keeps [lo <= hi] and moves [lo] past every probed element [<= z]. *)
Equations? bisect_right (a : list R) (z : R) (lo hi : nat) : nat
  by wf (hi - lo)%nat lt :=
  bisect_right a z lo hi with lt_dec lo hi := {
    | left _ with Rlt_dec z (nth (lo + (hi - lo) / 2) a 0) := {
        | left _ := bisect_right a z lo (lo + (hi - lo) / 2)%nat;
        | right _ := bisect_right a z (S (lo + (hi - lo) / 2)) hi };
    | right _ := lo }.
Proof.
  all: change (Nat.divmod (hi - lo) 1 0 1).1 with ((hi - lo) / 2)%nat;
    pose proof (Nat.Div0.div_lt_upper_bound (hi - lo) 2 (hi - lo)); lia.
Qed.

Definition searchsorted_right (a : list R) (z : R) : nat :=
  bisect_right a z 0 (length a).

(** [LayeredMesh.get_layer_index]; Python's [or] evaluates its right operand
    only when the left one is false. *)
Definition get_layer_index (self : LayeredMesh) (z : R) : outcome Z :=
  first ← py_index (_layer_boundaries self) 0;
  if bool_decide (z < first) then Ok (-1)%Z
  else
    final ← py_index (_layer_boundaries self) (-1);
    if bool_decide (z > final) then Ok (-1)%Z
    else Ok (Z.of_nat (searchsorted_right (_layer_boundaries self) z) - 1)%Z.

(** [LayeredMesh.get_properties_at]; [None] is Python's [None]. *)
Definition get_properties_at (self : LayeredMesh) (z : R)
    : outcome (option (gmap string R)) :=
  layer_index ← get_layer_index self z;
  if (layer_index =? -1)%Z then Ok None
  else
    props ← py_index (_layer_properties self) layer_index;
    Ok (Some props).

End Mesh.

(** ** The random stream *)

(** One call of [np.random.rand()] or [np.random.uniform()]: the next draw
    and the draws that remain. *)
Definition draw (rng : list R) : outcome (R * list R) :=
  match rng with
  | [] => NoMoreDraws
  | u :: rest => Ok (u, rest)
  end.

(** ** henyey_greenstein.py *)

Module HenyeyGreenstein.

(** Division of two Python floats. *)
Definition py_div (x y : R) : outcome R :=
  if bool_decide (y = 0) then Raise ZeroDivisionError else Ok (x / y).

(** [np.arccos]: outside [-1, 1] numpy returns [nan] (with a warning, no
    exception), which the model records as [NonFinite]. *)
Definition np_arccos (x : R) : outcome R :=
  if bool_decide (-1 <= x <= 1) then Ok (acos x) else NonFinite.

Definition epsilon : R := 1 / 10 ^ 10.

Definition sample_henyey_greenstein (g : R) (rng : list R)
    : outcome (R * list R) :=
  if bool_decide (Rabs g < epsilon) then
    '(u, rng') ← draw rng;
    let costheta := 2 * u - 1 in
    theta ← np_arccos costheta;
    Ok (theta, rng')
  else
    '(rnd, rng') ← draw rng;
    ratio ← py_div (1 - g ^ 2) (1 - g + 2 * g * rnd);
    costheta ← py_div (1 + g ^ 2 - ratio ^ 2) (2 * g);
    theta ← np_arccos costheta;
    Ok (theta, rng').

End HenyeyGreenstein.

(** The cosine of the anisotropic branch as the program evaluates it: in
    binary64 arithmetic, every operation rounded to nearest, in the operator
    order of the source line
    [(1 + g**2 - ((1 - g**2) / (1 - g + 2 * g * rnd))**2) / (2 * g)].
    [x ** 2] is read as the rounded product [x * x]. *)
Module Doubles.

Definition square (x : float) : float := (x * x)%float.

Definition costheta (g rnd : float) : float :=
  ((1 + square g - square ((1 - square g) / (1 - g + 2 * g * rnd)))
   / (2 * g))%float.

End Doubles.

(** ** photon.py *)

Module Photon.

(** A numpy array of three floats. *)
Record vec3 : Type := Vec3 { vx : R; vy : R; vz : R }.

Definition vadd (a b : vec3) : vec3 :=
  Vec3 (vx a + vx b) (vy a + vy b) (vz a + vz b).

Definition vscale (a : vec3) (k : R) : vec3 :=
  Vec3 (vx a * k) (vy a * k) (vz a * k).

Record Photon : Type := mkPhoton {
  position : vec3;
  direction : vec3;
  path : list vec3;
  weight : R;
  alive : bool
}.

Definition set_direction (d : vec3) (self : Photon) : Photon :=
  mkPhoton (position self) d (path self) (weight self) (alive self).
Definition set_path (p : list vec3) (self : Photon) : Photon :=
  mkPhoton (position self) (direction self) p (weight self) (alive self).
Definition set_weight (w : R) (self : Photon) : Photon :=
  mkPhoton (position self) (direction self) (path self) w (alive self).
Definition set_alive (a : bool) (self : Photon) : Photon :=
  mkPhoton (position self) (direction self) (path self) (weight self) a.

(** The dataclass defaults of the two fields. *)
Definition default_position : vec3 := Vec3 0 0 1.
Definition default_direction : vec3 := Vec3 0 0 1.

(** The generated [__init__] followed by [__post_init__]. *)
Definition init (position direction : vec3) : Photon :=
  {| position := position;
     direction := direction;
     path := [position];
     weight := 1;
     alive := true |}.

(** The call [Photon(a)]: one positional argument binds the first field. *)
Definition init1 (a : vec3) : Photon := init a default_direction.

Definition move (self : Photon) (step_size : R) : outcome Photon :=
  last ← py_index (path self) (-1);
  let new_position := vadd last (vscale (direction self) step_size) in
  Ok (set_path (path self ++ [new_position]) self).

Definition scatter (self : Photon) (g : R) (rng : list R)
    : outcome (Photon * list R) :=
  '(theta, rng1) ← HenyeyGreenstein.sample_henyey_greenstein g rng;
  '(u, rng2) ← draw rng1;
  let phi := 2 * PI * u in
  Ok (set_direction
        (Vec3 (sin theta * cos phi) (sin theta * sin phi) (cos theta)) self,
      rng2).

Definition absorb (self : Photon) (mu_a step_size : R) : Photon :=
  let absorbed := weight self * (1 - exp (- mu_a * step_size)) in
  set_weight (weight self - absorbed) self.

Definition default_threshold : R := 1 / 1000.

Definition check_weight (self : Photon) (threshold : R) : Photon :=
  if bool_decide (weight self < threshold) then set_alive false self
  else self.

End Photon.

(** ** simulation.py *)

Module Simulation.
Import Mesh Photon.

Record MonteCarloSimulator : Type := mkSimulator {
  mesh : LayeredMesh;
  num_photons : nat;
  initial_photon_direction : vec3;
  photon_paths : list (list vec3);
  absorption_profile : list R
}.

(** The default of the constructor's [initial_photon_direction]. *)
Definition default_initial_photon_direction : vec3 := Vec3 0 0 1.

(** [np.zeros_like(a[:-1])] on an array of floats, as [add_layer] documents
    its boundaries.  (An array built from Python ints only is of integer
    type, and so is its profile: the entries written to it are truncated.
    The model does not cover such a mesh.) *)
Definition zeros_like_init (a : list R) : list R :=
  (fun _ => 0) <$> take (length a - 1) a.

(** [MonteCarloSimulator.__init__] *)
Definition init (mesh : LayeredMesh) (num_photons : nat)
    (initial_photon_direction : vec3) : MonteCarloSimulator :=
  {| mesh := mesh;
     num_photons := num_photons;
     initial_photon_direction := initial_photon_direction;
     photon_paths := [];
     absorption_profile := zeros_like_init (_layer_boundaries mesh) |}.

(** What one trial changes: the photon, the shared absorption profile and
    the random stream. *)
Record trial_state : Type := mkTrial {
  photon : Photon;
  profile : list R;
  rng : list R
}.

(** The test of line 69: is the depth outside the mesh? *)
Definition outside (mesh : LayeredMesh) (z : R) : outcome bool :=
  first ← py_index (_layer_boundaries mesh) 0;
  if bool_decide (z < first) then Ok true
  else
    final ← py_index (_layer_boundaries mesh) (-1);
    Ok (bool_decide (z > final)).

(** [-np.log(u) / mu_s]: the logarithm of 0 is [-inf], and numpy divides
    by 0 into [inf] or [nan]; the program goes on with that step, the model
    records [NonFinite]. *)
Definition free_path (u mu_s : R) : outcome R :=
  if bool_decide (u <= 0) then NonFinite
  else if bool_decide (mu_s = 0) then NonFinite
  else Ok (- ln u / mu_s).

(** One pass through the body of [while photon.alive]. *)
Definition iteration (mesh : LayeredMesh) (st : trial_state)
    : outcome trial_state :=
  current_position ← py_index (path (photon st)) (-1);
  out ← outside mesh (vz current_position);
  if out : bool then
    Ok (mkTrial (set_alive false (photon st)) (profile st) (rng st))
  else
    layer_index ← get_layer_index mesh (vz current_position);
    layer_props ← py_index (_layer_properties mesh) layer_index;
    '(u, rng') ← draw (rng st);
    mu_s ← py_getitem layer_props "mu_s";
    step_size ← free_path u mu_s;
    photon1 ← move (photon st) step_size;
    let photon2 := check_weight photon1 default_threshold in
    slot ← py_index (profile st) layer_index;
    mu_a ← py_getitem layer_props "mu_a";
    profile' ← py_setitem (profile st) layer_index
                 (slot + weight photon2 * mu_a * step_size);
    let photon3 :=
      set_weight (weight photon2 * (1 - mu_a * step_size)) photon2 in
    Ok (mkTrial photon3 profile' rng').

(** [while photon.alive: ...], with a bound on the number of passes; a
    loop still running when the bound is used up has no outcome here. *)
Fixpoint while_alive (fuel : nat) (mesh : LayeredMesh) (st : trial_state)
    : outcome trial_state :=
  if alive (photon st) then
    match fuel with
    | O => NoMoreDraws
    | S fuel' => st' ← iteration mesh st; while_alive fuel' mesh st'
    end
  else Ok st.

(** Every pass but the last of a trial takes a draw, so one pass more than
    there are draws is all the loop can make: this bound never stops a loop
    that the draws would let go on (lemma [while_alive_fuel]). *)
Definition trial_loop (mesh : LayeredMesh) (st : trial_state)
    : outcome trial_state :=
  while_alive (S (length (rng st))) mesh st.

(** The body of [for _ in range(self.num_photons)]. *)
Definition trial (self : MonteCarloSimulator) (rng : list R)
    : outcome (MonteCarloSimulator * list R) :=
  let photon0 := init1 (initial_photon_direction self) in
  st ← trial_loop (mesh self) (mkTrial photon0 (absorption_profile self) rng);
  Ok (mkSimulator (mesh self) (num_photons self)
        (initial_photon_direction self)
        (photon_paths self ++ [path (photon st)])
        (profile st),
      Simulation.rng st).

Fixpoint run_photons (n : nat) (self : MonteCarloSimulator) (rng : list R)
    : outcome (MonteCarloSimulator * list R) :=
  match n with
  | O => Ok (self, rng)
  | S n' => '(self', rng') ← trial self rng; run_photons n' self' rng'
  end.

(** [MonteCarloSimulator.run] *)
Definition run (self : MonteCarloSimulator) (rng : list R)
    : outcome (MonteCarloSimulator * list R) :=
  run_photons (num_photons self) self rng.

End Simulation.

(** ** analysis.py *)

Module Analysis.
Import Mesh Photon Simulation.

(** [sum(1 for path in paths if test(path))]: the paths are tested in
    order, and the first test that raises ends the sum. *)
Fixpoint count_paths (test : list vec3 -> outcome bool)
    (paths : list (list vec3)) : outcome nat :=
  match paths with
  | [] => Ok 0%nat
  | path :: rest =>
      hit ← test path;
      n ← count_paths test rest;
      Ok (if hit : bool then S n else n)
  end.

(** [path[-1][2] < mesh._layer_boundaries[0]] *)
Definition is_reflected (mesh : LayeredMesh) (path : list vec3)
    : outcome bool :=
  final ← py_index path (-1);
  first ← py_index (_layer_boundaries mesh) 0;
  Ok (bool_decide (vz final < first)).

(** [path[-1][2] > mesh._layer_boundaries[-1]] *)
Definition is_transmitted (mesh : LayeredMesh) (path : list vec3)
    : outcome bool :=
  final ← py_index path (-1);
  last ← py_index (_layer_boundaries mesh) (-1);
  Ok (bool_decide (vz final > last)).

(** [Analysis.reflection_transmission]: the two rates that the method
    prints, before they are formatted. *)
Definition reflection_transmission (simulator : MonteCarloSimulator)
    : outcome (R * R) :=
  reflected ← count_paths (is_reflected (mesh simulator))
                (photon_paths simulator);
  transmitted ← count_paths (is_transmitted (mesh simulator))
                  (photon_paths simulator);
  let total_photons := length (photon_paths simulator) in
  reflection_rate ←
    HenyeyGreenstein.py_div (INR reflected) (INR total_photons);
  transmission_rate ←
    HenyeyGreenstein.py_div (INR transmitted) (INR total_photons);
  Ok (reflection_rate, transmission_rate).

(** [max(path, key=lambda p: p[2])]: the first position of greatest depth;
    [ValueError] on an empty path. *)
Definition deepest (path : list vec3) : outcome vec3 :=
  match path with
  | [] => Raise ValueError
  | p :: rest =>
      Ok (foldl (fun best q => if bool_decide (vz q > vz best) then q else best)
            p rest)
  end.

(** The list [max_depths] of [Analysis.penetration_depth_distribution],
    which the method hands to the histogram. *)
Fixpoint max_depths (paths : list (list vec3)) : outcome (list R) :=
  match paths with
  | [] => Ok []
  | path :: rest =>
      p ← deepest path;
      depths ← max_depths rest;
      Ok (vz p :: depths)
  end.

End Analysis.

(** ** Vocabulary of the statements *)

Module Vocabulary.
Import Mesh Photon Simulation.

(** Boundaries in strictly increasing order. *)
Definition strictly_increasing (b : list R) : Prop :=
  forall (i j : nat) (x y : R),
    b !! i = Some x -> b !! j = Some y -> (i < j)%nat -> x < y.

Definition sorted (b : list R) : Prop :=
  forall (i j : nat) (x y : R),
    b !! i = Some x -> b !! j = Some y -> (i <= j)%nat -> x <= y.

(** The conditions under which [add_layer] refuses a layer. *)
Definition rejected (self : LayeredMesh) (boundary : R)
    (properties : gmap string R) : Prop :=
  (exists final, last (_layer_boundaries self) = Some final /\ boundary <= final)
  \/ (exists key, key ∈ required_keys /\ properties !! key = None).

(** Every layer has [mu_a >= 0] and [mu_s > 0]. *)
Definition physical (mesh : LayeredMesh) : Prop :=
  forall props, props ∈ _layer_properties mesh ->
    (forall mu_a, props !! "mu_a" = Some mu_a -> 0 <= mu_a) /\
    (forall mu_s, props !! "mu_s" = Some mu_s -> 0 < mu_s).

(** Draws as [np.random.rand] makes them. *)
Definition uniform (draws : list R) : Prop :=
  forall u, u ∈ draws -> 0 <= u < 1.

(** [reaches mesh st st']: a trial that tests its loop condition in state
    [st] tests it again, zero or more passes later, in state [st']. *)
Inductive reaches (mesh : LayeredMesh) : trial_state -> trial_state -> Prop :=
| reaches_here st : reaches mesh st st
| reaches_pass st st1 st' :
    alive (photon st) = true ->
    iteration mesh st = Ok st1 ->
    reaches mesh st1 st' ->
    reaches mesh st st'.

(** The free path that a pass from [st] samples, in the layer of the
    photon's depth and from the next draw, is at most [1 / mu_a]. *)
Definition short_step (mesh : LayeredMesh) (st : trial_state) : Prop :=
  forall pos i props u rest mu_s mu_a,
    py_index (path (photon st)) (-1) = Ok pos ->
    get_layer_index mesh (vz pos) = Ok i ->
    py_index (_layer_properties mesh) i = Ok props ->
    rng st = u :: rest ->
    props !! "mu_s" = Some mu_s -> props !! "mu_a" = Some mu_a ->
    mu_a * (- ln u / mu_s) <= 1.

(** [reaches] through passes that all sample a short step. *)
Inductive reaches_short (mesh : LayeredMesh)
    : trial_state -> trial_state -> Prop :=
| short_here st : reaches_short mesh st st
| short_pass st st1 st' :
    alive (photon st) = true ->
    short_step mesh st ->
    iteration mesh st = Ok st1 ->
    reaches_short mesh st1 st' ->
    reaches_short mesh st st'.

(** The photon after a pass that samples the free path [step] from the last
    position [pos] in a layer with absorption coefficient [mu_a]. *)
Definition advanced (p : Photon) (pos : vec3) (mu_a step : R) : Photon :=
  {| position := position p;
     direction := direction p;
     path := path p ++ [vadd pos (vscale (direction p) step)];
     weight := weight p * (1 - mu_a * step);
     alive := alive p && negb (bool_decide (weight p < default_threshold)) |}.

(** The state in which [run] starts a trial. *)
Definition trial_start (self : MonteCarloSimulator) (rng : list R)
    : trial_state :=
  mkTrial (init1 (initial_photon_direction self)) (absorption_profile self) rng.

(** A mesh as [add_layer] leaves it: boundaries strictly increasing, one
    property record per boundary, the four keys in every record. *)
Definition well_formed (m : LayeredMesh) : Prop :=
  strictly_increasing (_layer_boundaries m) /\
  length (_layer_properties m) = length (_layer_boundaries m) /\
  forall props, props ∈ _layer_properties m ->
    forall key, key ∈ required_keys -> is_Some (props !! key).

(** The mesh after a series of [add_layer] calls on a new mesh, refused
    calls included. *)
Definition built (calls : list (R * gmap string R)) : LayeredMesh :=
  foldl (fun m call => (add_layer m call.1 call.2).2) Mesh.init calls.

(** Depth does not decrease along the path. *)
Definition ascending (path : list vec3) : Prop :=
  forall (i j : nat) (p q : vec3),
    path !! i = Some p -> path !! j = Some q -> (i <= j)%nat -> vz p <= vz q.

(** Every layer has [mu_s > 0]. *)
Definition scattering (mesh : LayeredMesh) : Prop :=
  forall props, props ∈ _layer_properties mesh ->
    forall mu_s, props !! "mu_s" = Some mu_s -> 0 < mu_s.

(** The positions reached from [pos] along [d], each one the previous one
    displaced by [d] times the next step. *)
Fixpoint trail (pos d : vec3) (steps : list R) : list vec3 :=
  match steps with
  | [] => []
  | step_size :: rest =>
      let new_position := vadd pos (vscale d step_size) in
      new_position :: trail new_position d rest
  end.

(** A series of [move] calls on one photon, one per step. *)
Fixpoint move_all (steps : list R) (self : Photon) : outcome Photon :=
  match steps with
  | [] => Ok self
  | step_size :: rest => moved ← move self step_size; move_all rest moved
  end.

(** A path that begins at [start] and goes straight down from there: x and
    y stay, the depth does not decrease. *)
Definition straight (start : vec3) (path : list vec3) : Prop :=
  head path = Some start /\
  ascending path /\
  forall p, p ∈ path -> vx p = vx start /\ vy p = vy start.

End Vocabulary.

(** ** Sample data *)

Module Samples.
Import Mesh Photon Simulation.

(** A medium that absorbs strongly: [mu_a = 2], [mu_s = 1]. *)
Definition dense : gmap string R :=
  {[ "n" := 1; "mu_s" := 1; "mu_a" := 2; "g" := 0 ]}.

(** A medium that absorbs weakly: [mu_a = 1/2], [mu_s = 1]. *)
Definition clear : gmap string R :=
  {[ "n" := 1; "mu_s" := 1; "mu_a" := 1 / 2; "g" := 0 ]}.

(** A record without ["mu_s"]. *)
Definition incomplete : gmap string R :=
  {[ "n" := 1; "mu_a" := 1 / 10; "g" := 9 / 10 ]}.

(** [add_layer(0, ...)], [add_layer(1, ...)] on a fresh mesh. *)
Definition slab (props : gmap string R) : LayeredMesh :=
  {| _layer_boundaries := [0; 1]; _layer_properties := [props; props] |}.

(** Boundaries 0 and 10. *)
Definition thick (props : gmap string R) : LayeredMesh :=
  {| _layer_boundaries := [0; 10]; _layer_properties := [props; props] |}.

(** Boundaries 0, 1 and 2. *)
Definition stack : LayeredMesh :=
  {| _layer_boundaries := [0; 1; 2];
     _layer_properties := [clear; clear; clear] |}.

End Samples.

(** * Properties *)

(** ** Helpers on outcomes and indexing *)

Lemma bind_Ok {A B} (c : outcome A) (k : A -> outcome B) (b : B) :
  c ≫= k = Ok b -> exists a, c = Ok a /\ k a = Ok b.
Proof. destruct c; cbn; try discriminate. eauto. Qed.

Lemma py_index_nat {A} (l : list A) (i : nat) (x : A) :
  l !! i = Some x -> py_index l (Z.of_nat i) = Ok x.
Proof.
  intros Hx. pose proof (lookup_lt_Some _ _ _ Hx) as Hlt.
  unfold py_index.
  destruct (Z.ltb_spec (Z.of_nat i) 0); [lia|].
  destruct (Z.leb_spec 0 (Z.of_nat i)); [|lia].
  destruct (Z.ltb_spec (Z.of_nat i) (Z.of_nat (length l))); [|lia].
  cbn. rewrite Nat2Z.id, Hx. reflexivity.
Qed.

Lemma py_index_overflow {A} (l : list A) (i : Z) :
  (Z.of_nat (length l) <= i)%Z -> py_index l i = Raise IndexError.
Proof.
  intros Hge. unfold py_index.
  destruct (Z.ltb_spec i 0); [lia|].
  destruct (Z.ltb_spec i (Z.of_nat (length l))); [lia|].
  rewrite andb_false_r. reflexivity.
Qed.

Lemma py_index_last {A} (l : list A) (x : A) :
  last l = Some x -> py_index l (-1) = Ok x.
Proof.
  intros Hx. rewrite last_lookup in Hx.
  pose proof (lookup_lt_Some _ _ _ Hx) as Hlt.
  unfold py_index. cbn [Z.ltb Z.compare].
  destruct (Z.leb_spec 0 (Z.of_nat (length l) + -1)); [|lia].
  destruct (Z.ltb_spec (Z.of_nat (length l) + -1) (Z.of_nat (length l))); [|lia].
  cbn. replace (Z.to_nat (Z.of_nat (length l) + -1)) with (pred (length l)) by lia.
  rewrite Hx. reflexivity.
Qed.

Lemma py_index_head {A} (l : list A) (x : A) :
  head l = Some x -> py_index l 0 = Ok x.
Proof.
  intros Hx. apply (py_index_nat l 0). rewrite <- head_lookup. exact Hx.
Qed.

Lemma py_setitem_nat {A} (l : list A) (i : nat) (x : A) :
  (i < length l)%nat -> py_setitem l (Z.of_nat i) x = Ok (<[i := x]> l).
Proof.
  intros Hlt. unfold py_setitem.
  destruct (Z.ltb_spec (Z.of_nat i) 0); [lia|].
  destruct (Z.leb_spec 0 (Z.of_nat i)); [|lia].
  destruct (Z.ltb_spec (Z.of_nat i) (Z.of_nat (length l))); [|lia].
  cbn. rewrite Nat2Z.id. reflexivity.
Qed.

(** ** The layered mesh *)

Module MeshFacts.
Import Mesh Vocabulary.

Lemma strictly_increasing_sorted b : strictly_increasing b -> sorted b.
Proof.
  intros Hb i j x y Hi Hj Hle.
  destruct (Nat.eq_dec i j) as [->|Hne].
  - rewrite Hi in Hj. injection Hj as ->. lra.
  - apply Rlt_le. apply (Hb i j); [assumption..|lia].
Qed.

Lemma midpoint_bounds (lo hi : nat) :
  (lo < hi)%nat -> (lo <= lo + (hi - lo) / 2 < hi)%nat.
Proof.
  intros Hlt.
  pose proof (Nat.Div0.div_lt_upper_bound (hi - lo) 2 (hi - lo)). lia.
Qed.

(** The binary search splits the window [lo, hi) at the first element
    greater than [z]. *)
Lemma bisect_right_spec (a : list R) (z : R) (lo hi : nat) :
  sorted a ->
  (lo <= hi <= length a)%nat ->
  (forall i x, a !! i = Some x -> (i < lo)%nat -> x <= z) ->
  (forall i x, a !! i = Some x -> (hi <= i)%nat -> z < x) ->
  (lo <= bisect_right a z lo hi <= hi)%nat /\
  (forall i x, a !! i = Some x -> (i < bisect_right a z lo hi)%nat -> x <= z) /\
  (forall i x, a !! i = Some x -> (bisect_right a z lo hi <= i)%nat -> z < x).
Proof.
  intros Hsorted.
  funelim (bisect_right a z lo hi); intros Hwin Hbelow Habove.
  - (* empty window *)
    assert (lo = hi) as -> by lia.
    repeat split; [lia|lia|assumption..].
  - (* z < a[mid]: continue in [lo, mid) *)
    match goal with Hlt : (lo < hi)%nat |- _ =>
      pose proof (midpoint_bounds lo hi Hlt) as Hmid end.
    destruct (lookup_lt_is_Some_2 a (lo + (hi - lo) / 2)) as [m Hm]; [lia|].
    match goal with Hz : z < nth _ _ _ |- _ =>
      pose proof Hz as Hzm; rewrite (nth_lookup_Some _ _ _ _ Hm) in Hzm end.
    match goal with IH : sorted a -> _ |- _ =>
      destruct IH as (Hr & Hlow & Hhigh); [assumption|lia|assumption| |] end.
    + intros i x Hx Hge. eapply Rlt_le_trans; [exact Hzm|].
      apply (Hsorted _ i _ _ Hm Hx). lia.
    + repeat split; [lia|lia|assumption..].
  - (* a[mid] <= z: continue in [mid + 1, hi) *)
    match goal with Hlt : (lo < hi)%nat |- _ =>
      pose proof (midpoint_bounds lo hi Hlt) as Hmid end.
    destruct (lookup_lt_is_Some_2 a (lo + (hi - lo) / 2)) as [m Hm]; [lia|].
    match goal with Hz : ~ z < nth _ _ _ |- _ =>
      pose proof Hz as Hzm; rewrite (nth_lookup_Some _ _ _ _ Hm) in Hzm end.
    match goal with IH : sorted a -> _ |- _ =>
      destruct IH as (Hr & Hlow & Hhigh); [assumption|lia| |assumption|] end.
    + intros i x Hx Hlt. apply Rle_trans with m; [|lra].
      apply (Hsorted i _ _ _ Hx Hm). lia.
    + repeat split; [lia|lia|assumption..].
Qed.

Lemma searchsorted_right_spec (a : list R) (z : R) :
  sorted a ->
  (searchsorted_right a z <= length a)%nat /\
  (forall i x, a !! i = Some x -> (i < searchsorted_right a z)%nat -> x <= z) /\
  (forall i x, a !! i = Some x -> (searchsorted_right a z <= i)%nat -> z < x).
Proof.
  intros Hsorted. unfold searchsorted_right.
  destruct (bisect_right_spec a z 0 (length a) Hsorted) as (Hr & Hlow & Hhigh).
  - lia.
  - intros; lia.
  - intros i x Hx Hge. apply lookup_lt_Some in Hx. lia.
  - repeat split; [lia|assumption..].
Qed.

Lemma get_layer_index_inside (self : LayeredMesh) (z first final : R) :
  sorted (_layer_boundaries self) ->
  head (_layer_boundaries self) = Some first ->
  last (_layer_boundaries self) = Some final ->
  first <= z <= final ->
  exists i : nat,
    searchsorted_right (_layer_boundaries self) z = S i /\
    get_layer_index self z = Ok (Z.of_nat i) /\
    (exists bi, _layer_boundaries self !! i = Some bi /\ bi <= z) /\
    (forall j bj, _layer_boundaries self !! j = Some bj -> bj <= z ->
                  (j <= i)%nat).
Proof.
  intros Hsorted Hfirst Hfinal [Hlo Hhi].
  destruct (searchsorted_right_spec _ z Hsorted) as (Hlen & Hlow & Hhigh).
  unfold get_layer_index.
  rewrite (py_index_head _ _ Hfirst), (py_index_last _ _ Hfinal). cbn.
  rewrite bool_decide_eq_false_2 by lra.
  rewrite bool_decide_eq_false_2 by lra.
  destruct (searchsorted_right (_layer_boundaries self) z) as [|i] eqn:Hr.
  - rewrite head_lookup in Hfirst.
    pose proof (Hhigh 0%nat first Hfirst ltac:(lia)). lra.
  - exists i. split; [reflexivity|]. split; [f_equal; lia|]. split.
    + destruct (lookup_lt_is_Some_2 (_layer_boundaries self) i) as [bi Hbi];
        [lia|].
      exists bi. split; [assumption|]. apply (Hlow i); [assumption|lia].
    + intros j bj Hbj Hle.
      destruct (le_lt_dec j i) as [|Hgt]; [assumption|].
      pose proof (Hhigh j bj Hbj ltac:(lia)). lra.
Qed.

Lemma get_layer_index_outside (self : LayeredMesh) (z first final : R) :
  head (_layer_boundaries self) = Some first ->
  last (_layer_boundaries self) = Some final ->
  z < first \/ z > final ->
  get_layer_index self z = Ok (-1)%Z.
Proof.
  intros Hfirst Hfinal Hout. unfold get_layer_index.
  rewrite (py_index_head _ _ Hfirst). cbn.
  destruct (decide (z < first)) as [Hlt|Hge].
  - rewrite bool_decide_eq_true_2 by assumption. reflexivity.
  - rewrite bool_decide_eq_false_2 by assumption.
    rewrite (py_index_last _ _ Hfinal). cbn.
    rewrite bool_decide_eq_true_2 by (destruct Hout; [contradiction|assumption]).
    reflexivity.
Qed.

(** A depth in the half-open interval between two consecutive boundaries
    belongs to the layer that begins at the lower one. *)
Lemma get_layer_index_layer (self : LayeredMesh) (z : R) (k : nat)
    (lower upper : R) :
  sorted (_layer_boundaries self) ->
  _layer_boundaries self !! k = Some lower ->
  _layer_boundaries self !! S k = Some upper ->
  lower <= z < upper ->
  get_layer_index self z = Ok (Z.of_nat k).
Proof.
  intros Hsorted Hk Hk1 [Hlo Hhi].
  destruct (_layer_boundaries self) as [|first rest] eqn:Hb; [discriminate|].
  destruct (last (first :: rest)) as [final|] eqn:Hfinal;
    [|apply last_None in Hfinal; discriminate].
  rewrite <- Hb in *.
  assert (Hfirst : head (_layer_boundaries self) = Some first)
    by (rewrite Hb; reflexivity).
  assert (Hin : first <= z <= final).
  { split.
    - apply Rle_trans with lower; [|exact Hlo].
      rewrite head_lookup in Hfirst.
      apply (Hsorted 0%nat k); [assumption..|lia].
    - apply Rle_trans with upper; [lra|].
      rewrite last_lookup in Hfinal.
      apply (Hsorted (S k) (pred (length (_layer_boundaries self))));
        [assumption..|]. apply lookup_lt_Some in Hk1. lia. }
  destruct (get_layer_index_inside self z first final Hsorted Hfirst Hfinal Hin)
    as (i & _ & Hi & (bi & Hbi & Hle) & Hmax).
  rewrite Hi. do 2 f_equal.
  pose proof (Hmax k lower Hk Hlo) as Hki.
  destruct (le_lt_dec i k) as [|Hgt]; [lia|].
  pose proof (Hsorted (S k) i upper bi Hk1 Hbi ltac:(lia)). lra.
Qed.

(** The last boundary itself belongs to the last index. *)
Lemma get_layer_index_last (self : LayeredMesh) (first final : R) :
  sorted (_layer_boundaries self) ->
  head (_layer_boundaries self) = Some first ->
  last (_layer_boundaries self) = Some final ->
  get_layer_index self final
  = Ok (Z.of_nat (length (_layer_boundaries self)) - 1)%Z.
Proof.
  intros Hsorted Hfirst Hfinal.
  assert (Hin : first <= final <= final).
  { split; [|lra]. rewrite head_lookup in Hfirst. rewrite last_lookup in Hfinal.
    apply (Hsorted 0%nat (pred (length (_layer_boundaries self))));
      [assumption..|lia]. }
  destruct (get_layer_index_inside self final first final Hsorted Hfirst Hfinal
              Hin) as (i & _ & Hi & (bi & Hbi & _) & Hmax).
  rewrite Hi. f_equal. rewrite last_lookup in Hfinal.
  pose proof (Hmax _ final Hfinal ltac:(lra)).
  apply lookup_lt_Some in Hbi. apply lookup_lt_Some in Hfinal. lia.
Qed.

(** C4: on strictly increasing boundaries and for [z] between the first and
    the last one, [get_layer_index] returns the greatest index [i] with
    [b[i] <= z]; a [z] equal to a boundary gets the index of that boundary
    (the last boundary gets [n - 1]); below the first or above the last
    boundary the result is [-1]. *)
Theorem get_layer_index_greatest (self : LayeredMesh) (z first final : R) :
  strictly_increasing (_layer_boundaries self) ->
  head (_layer_boundaries self) = Some first ->
  last (_layer_boundaries self) = Some final ->
  (first <= z <= final ->
     exists i : nat,
       get_layer_index self z = Ok (Z.of_nat i) /\
       (exists bi, _layer_boundaries self !! i = Some bi /\ bi <= z) /\
       (forall j bj, _layer_boundaries self !! j = Some bj -> bj <= z ->
                     (j <= i)%nat)) /\
  (forall i : nat, _layer_boundaries self !! i = Some z ->
     get_layer_index self z = Ok (Z.of_nat i)) /\
  (z = final ->
     get_layer_index self z
     = Ok (Z.of_nat (length (_layer_boundaries self)) - 1)%Z) /\
  (z < first \/ z > final -> get_layer_index self z = Ok (-1)%Z).
Proof.
  intros Hincr Hfirst Hfinal.
  pose proof (strictly_increasing_sorted _ Hincr) as Hsorted.
  assert (Hat : forall i : nat, _layer_boundaries self !! i = Some z ->
            get_layer_index self z = Ok (Z.of_nat i)).
  { intros i Hi.
    assert (first <= z <= final) as Hin.
    { split.
      - rewrite head_lookup in Hfirst. apply (Hsorted 0%nat i); [assumption..|lia].
      - rewrite last_lookup in Hfinal.
        apply (Hsorted i (pred (length (_layer_boundaries self))));
          [assumption..|]. apply lookup_lt_Some in Hi. lia. }
    destruct (get_layer_index_inside self z first final Hsorted Hfirst Hfinal Hin)
      as (k & _ & Hk & (bk & Hbk & Hle) & Hmax).
    rewrite Hk. do 2 f_equal.
    pose proof (Hmax i z Hi ltac:(lra)) as Hik.
    destruct (Nat.eq_dec i k) as [|Hne]; [congruence|].
    pose proof (Hincr i k z bk Hi Hbk ltac:(lia)). lra. }
  split; [|split; [exact Hat|split]].
  - intros Hin.
    destruct (get_layer_index_inside self z first final Hsorted Hfirst Hfinal Hin)
      as (i & _ & Hi). exists i. exact Hi.
  - intros ->. rewrite last_lookup in Hfinal.
    rewrite (Hat _ Hfinal). f_equal.
    apply lookup_lt_Some in Hfinal. lia.
  - apply get_layer_index_outside; assumption.
Qed.

Lemma last_default (l : list R) (x : R) : last l = Some x -> List.last l 0 = x.
Proof.
  induction l as [|a [|b l] IH]; intros Hx.
  - discriminate.
  - injection Hx as ->. reflexivity.
  - apply IH. exact Hx.
Qed.

Lemma has_all_keys (properties : gmap string R) :
  forallb (has_key properties) required_keys = true <->
  forall key, key ∈ required_keys -> is_Some (properties !! key).
Proof.
  rewrite forallb_forall. unfold has_key. split.
  - intros H key Hkey. apply list_elem_of_In in Hkey.
    apply (bool_decide_eq_true_1 _ (H key Hkey)).
  - intros H key Hkey. apply bool_decide_eq_true_2, H.
    apply list_elem_of_In. exact Hkey.
Qed.

(** C7: [add_layer] raises [ValueError] whenever the boundary is not above
    the last boundary of a non-empty mesh or one of the four keys is
    missing, and then leaves the mesh as it was; otherwise it appends
    exactly the boundary and the property record. *)
Theorem add_layer_validates (self : LayeredMesh) (boundary : R)
    (properties : gmap string R) :
  (rejected self boundary properties ->
     add_layer self boundary properties = (Raise ValueError, self)) /\
  (~ rejected self boundary properties ->
     add_layer self boundary properties
     = (Ok tt,
        {| _layer_boundaries := _layer_boundaries self ++ [boundary];
           _layer_properties := _layer_properties self ++ [properties] |})).
Proof.
  unfold rejected, add_layer. split.
  - intros [(final & Hfinal & Hle)|(key & Hkey & Hnone)].
    + rewrite (last_default _ _ Hfinal).
      rewrite (bool_decide_eq_true_2 _ Hle).
      destruct (_layer_boundaries self); [discriminate|reflexivity].
    + destruct (_ && _)%bool; [reflexivity|].
      destruct (forallb _ _) eqn:Hall; [|reflexivity].
      apply has_all_keys with (key := key) in Hall; [|assumption].
      rewrite Hnone in Hall. destruct Hall; discriminate.
  - intros Hnot.
    assert ((0 <? length (_layer_boundaries self))%nat
            && bool_decide (boundary <= List.last (_layer_boundaries self) 0)
            = false)%bool as ->.
    { destruct (last (_layer_boundaries self)) as [final|] eqn:Hfinal.
      - rewrite (last_default _ _ Hfinal).
        rewrite bool_decide_eq_false_2; [apply andb_false_r|].
        intros Hle. apply Hnot. left. eauto.
      - apply last_None in Hfinal. rewrite Hfinal. reflexivity. }
    assert (forallb (has_key properties) required_keys = true) as ->.
    { apply has_all_keys. intros key Hkey.
      destruct (properties !! key) eqn:Hget; [eauto|].
      exfalso. apply Hnot. right. eauto. }
    cbn [negb]. do 2 f_equal.
    destruct (_layer_boundaries self); reflexivity.
Qed.

Lemma stack_increasing : strictly_increasing (_layer_boundaries Samples.stack).
Proof.
  intros i j x y Hi Hj Hij. cbn in Hi, Hj.
  destruct i as [|[|[|i]]]; destruct j as [|[|[|j]]];
    cbn in Hi, Hj; try discriminate; try lia;
    injection Hi as <-; injection Hj as <-; lra.
Defined.

(** At depth 3/2 in the mesh with boundaries 0, 1, 2. *)
Lemma get_layer_index_greatest_witness :
  (0 <= 3 / 2 <= 2 ->
     exists i : nat,
       get_layer_index Samples.stack (3 / 2) = Ok (Z.of_nat i) /\
       (exists bi, _layer_boundaries Samples.stack !! i = Some bi /\ bi <= 3 / 2) /\
       (forall j bj, _layer_boundaries Samples.stack !! j = Some bj ->
                     bj <= 3 / 2 -> (j <= i)%nat)) /\
  (forall i : nat, _layer_boundaries Samples.stack !! i = Some (3 / 2) ->
     get_layer_index Samples.stack (3 / 2) = Ok (Z.of_nat i)) /\
  (3 / 2 = 2 ->
     get_layer_index Samples.stack (3 / 2)
     = Ok (Z.of_nat (length (_layer_boundaries Samples.stack)) - 1)%Z) /\
  (3 / 2 < 0 \/ 3 / 2 > 2 -> get_layer_index Samples.stack (3 / 2) = Ok (-1)%Z).
Proof.
  apply (get_layer_index_greatest Samples.stack (3 / 2) 0 2).
  - exact stack_increasing.
  - reflexivity.
  - reflexivity.
Defined.

(** Scenario A: in the mesh with boundaries 0, 1, 2 a step of 3/2 from
    depth 0 leads from layer 0 to layer 1. *)
Example stack_layers :
  get_layer_index Samples.stack 0 = Ok 0%Z /\
  get_layer_index Samples.stack (0 + 1 * (3 / 2)) = Ok 1%Z /\
  get_layer_index Samples.stack 2 = Ok 2%Z /\
  get_layer_index Samples.stack (-1) = Ok (-1)%Z.
Proof.
  pose proof (strictly_increasing_sorted _ stack_increasing) as Hsorted.
  split; [|split; [|split]].
  - apply (get_layer_index_layer Samples.stack 0 0 0 1 Hsorted);
      [reflexivity..|lra].
  - apply (get_layer_index_layer Samples.stack _ 1 1 2 Hsorted);
      [reflexivity..|lra].
  - apply (get_layer_index_last Samples.stack 0 2 Hsorted); reflexivity.
  - apply (get_layer_index_outside Samples.stack _ 0 2); [reflexivity..|].
    left. lra.
Qed.

Lemma complete_record (props : gmap string R) (n mu_s mu_a g : R) :
  props !! "n"%string = Some n -> props !! "mu_s"%string = Some mu_s ->
  props !! "mu_a"%string = Some mu_a -> props !! "g"%string = Some g ->
  forall key, key ∈ required_keys -> props !! key <> None.
Proof.
  intros Hn Hs Ha Hg key Hkey. unfold required_keys in Hkey.
  repeat (apply elem_of_cons in Hkey as [->|Hkey]; [congruence|]).
  apply elem_of_nil in Hkey. contradiction.
Qed.

(** On the mesh with boundaries 0 and 1: boundary 1 again is refused, a
    record without ["mu_s"] is refused, boundary 3 with a full record is
    appended. *)
Lemma add_layer_validates_witness :
  add_layer (Samples.slab Samples.clear) 1 Samples.clear
  = (Raise ValueError, Samples.slab Samples.clear) /\
  add_layer (Samples.slab Samples.clear) 3 Samples.incomplete
  = (Raise ValueError, Samples.slab Samples.clear) /\
  add_layer (Samples.slab Samples.clear) 3 Samples.clear
  = (Ok tt,
     {| _layer_boundaries := [0; 1; 3];
        _layer_properties := [Samples.clear; Samples.clear; Samples.clear] |}).
Proof.
  split; [|split].
  - apply (proj1 (add_layer_validates (Samples.slab Samples.clear) 1 Samples.clear)).
    left. exists 1. split; [reflexivity|lra].
  - apply (proj1 (add_layer_validates (Samples.slab Samples.clear) 3
                    Samples.incomplete)).
    right. exists "mu_s"%string. split; [|reflexivity].
    unfold required_keys. apply elem_of_cons. right. apply elem_of_cons. left.
    reflexivity.
  - apply (proj2 (add_layer_validates (Samples.slab Samples.clear) 3 Samples.clear)).
    intros [(final & Hfinal & Hle)|(key & Hkey & Hnone)].
    + injection Hfinal as <-. lra.
    + apply (complete_record Samples.clear 1 1 (1 / 2) 0) in Hkey;
        [contradiction|reflexivity..].
Defined.

(** The two ways in which a call of [add_layer] ends. *)
Lemma add_layer_cases (self : LayeredMesh) (boundary : R)
    (properties : gmap string R) :
  add_layer self boundary properties = (Raise ValueError, self)
  \/ (add_layer self boundary properties
      = (Ok tt,
         {| _layer_boundaries := _layer_boundaries self ++ [boundary];
            _layer_properties := _layer_properties self ++ [properties] |})
      /\ (forall final, last (_layer_boundaries self) = Some final ->
            final < boundary)
      /\ (forall key, key ∈ required_keys -> is_Some (properties !! key))).
Proof.
  unfold add_layer.
  destruct (0 <? length (_layer_boundaries self))%nat eqn:Hsize; cbn [andb].
  - case_bool_decide as Hle; [left; reflexivity|].
    destruct (forallb _ _) eqn:Hall; [|left; reflexivity].
    right. cbn [negb]. split; [|split].
    + destruct (_layer_boundaries self); [discriminate|reflexivity].
    + intros final Hfinal. rewrite (last_default _ _ Hfinal) in Hle. lra.
    + apply has_all_keys. exact Hall.
  - destruct (forallb _ _) eqn:Hall; [|left; reflexivity].
    right. cbn [negb]. apply Nat.ltb_ge in Hsize.
    destruct (_layer_boundaries self); [|cbn in Hsize; lia].
    split; [reflexivity|]. split; [discriminate|].
    apply has_all_keys. exact Hall.
Qed.

Lemma add_layer_accepts (self : LayeredMesh) (boundary : R)
    (properties : gmap string R) :
  (forall final, last (_layer_boundaries self) = Some final -> final < boundary) ->
  (forall key, key ∈ required_keys -> properties !! key <> None) ->
  add_layer self boundary properties
  = (Ok tt,
     {| _layer_boundaries := _layer_boundaries self ++ [boundary];
        _layer_properties := _layer_properties self ++ [properties] |}).
Proof.
  intros Habove Hkeys. unfold add_layer.
  assert ((0 <? length (_layer_boundaries self))%nat
          && bool_decide (boundary <= List.last (_layer_boundaries self) 0)
          = false)%bool as ->.
  { destruct (last (_layer_boundaries self)) as [final|] eqn:Hfinal.
    - rewrite (last_default _ _ Hfinal).
      rewrite bool_decide_eq_false_2; [apply andb_false_r|].
      specialize (Habove final eq_refl). lra.
    - apply last_None in Hfinal. rewrite Hfinal. reflexivity. }
  assert (forallb (has_key properties) required_keys = true) as ->.
  { apply has_all_keys. intros key Hkey.
    destruct (properties !! key) eqn:Hget; [eauto|].
    exfalso. exact (Hkeys key Hkey Hget). }
  cbn [negb]. do 2 f_equal. destruct (_layer_boundaries self); reflexivity.
Qed.

(** The sample meshes are what [add_layer] builds from an empty mesh. *)
Example slab_built (props : gmap string R) (n mu_s mu_a g : R) :
  props !! "n"%string = Some n -> props !! "mu_s"%string = Some mu_s ->
  props !! "mu_a"%string = Some mu_a -> props !! "g"%string = Some g ->
  exists m1,
    add_layer Mesh.init 0 props = (Ok tt, m1) /\
    add_layer m1 1 props = (Ok tt, Samples.slab props).
Proof.
  intros Hn Hs Ha Hg.
  pose proof (complete_record props n mu_s mu_a g Hn Hs Ha Hg) as Hfull.
  exists {| _layer_boundaries := [0]; _layer_properties := [props] |}. split.
  - apply (add_layer_accepts Mesh.init 0 props); [discriminate|exact Hfull].
  - apply (add_layer_accepts
             {| _layer_boundaries := [0]; _layer_properties := [props] |}
             1 props); [|exact Hfull].
    intros final [= <-]. lra.
Qed.

End MeshFacts.

(** ** The Henyey-Greenstein sampler *)

Module SamplerFacts.
Import HenyeyGreenstein.

#[local] Arguments py_div : simpl never.
#[local] Arguments np_arccos : simpl never.
#[local] Arguments pow : simpl never.

Lemma py_div_zero (x y : R) : y = 0 -> py_div x y = Raise ZeroDivisionError.
Proof. intros Hy. unfold py_div. rewrite bool_decide_eq_true_2; done. Qed.

Lemma py_div_nonzero (x y : R) : y <> 0 -> py_div x y = Ok (x / y).
Proof. intros Hy. unfold py_div. rewrite bool_decide_eq_false_2; done. Qed.

Lemma epsilon_pos : 0 < epsilon.
Proof. unfold epsilon. apply Rdiv_lt_0_compat; [lra|]. apply pow_lt. lra. Qed.

(** With [g = 2]: at the draw 1/4 the inner denominator is 0 and the
    division raises; at the draw 3/10 the cosine is -55, where [np.arccos]
    gives [nan]. *)
Example sample_beyond_range :
  sample_henyey_greenstein 2 [1 / 4] = Raise ZeroDivisionError /\
  sample_henyey_greenstein 2 [3 / 10] = NonFinite.
Proof.
  assert (Hbranch : bool_decide (Rabs 2 < epsilon) = false).
  { apply bool_decide_eq_false_2. rewrite Rabs_pos_eq by lra.
    pose proof epsilon_pos as Hpos. unfold epsilon in *.
    intros Hlt. apply (Rmult_lt_compat_r (10 ^ 10)) in Hlt; [|apply pow_lt; lra].
    unfold Rdiv in Hlt.
    rewrite Rmult_assoc, Rinv_l in Hlt by (apply pow_nonzero; lra).
    assert (1 <= 10 ^ 10) by (apply pow_R1_Rle; lra). lra. }
  unfold sample_henyey_greenstein. rewrite Hbranch. split.
  - cbn. rewrite py_div_zero by lra. reflexivity.
  - cbn. rewrite py_div_nonzero by lra. cbn.
    rewrite py_div_nonzero by lra. cbn.
    unfold np_arccos. rewrite bool_decide_eq_false_2; [reflexivity|].
    intros [Hlow _].
    replace ((1 + 2 ^ 2 - ((1 - 2 ^ 2) / (1 - 2 + 2 * 2 * (3 / 10))) ^ 2)
             / (2 * 2)) with (-55) in Hlow by (field; lra).
    lra.
Qed.

(** C5, at the anisotropy [g = 1] and the draw [u = 0]: the sampler takes
    the anisotropic branch, the inner denominator [1 - g + 2 g u] is 0, and
    the division raises [ZeroDivisionError], so no angle in [0, pi] is
    returned.  At [g = 0.3] (the binary64 value [0x1.3333333333333p-2]) and
    the same draw the cosine, evaluated in binary64 in the operator order of
    the source, is below -1 (it is -1.0000000000000002), where [np.arccos]
    gives [nan]. *)
Theorem sample_fails_on_zero_draw (rng : list R) :
  ~ Rabs 1 < epsilon /\
  1 - 1 + 2 * 1 * 0 = 0 /\
  sample_henyey_greenstein 1 (0 :: rng) = Raise ZeroDivisionError /\
  PrimFloat.ltb (Doubles.costheta 0x1.3333333333333p-2 0) (-1) = true.
Proof.
  assert (Hbranch : ~ Rabs 1 < epsilon).
  { rewrite Rabs_R1. unfold epsilon. intros Hlt.
    assert (1 <= 10 ^ 10) by (apply pow_R1_Rle; lra).
    apply (Rmult_lt_compat_r (10 ^ 10)) in Hlt; [|lra].
    unfold Rdiv in Hlt. rewrite Rmult_assoc, Rinv_l in Hlt by lra. lra. }
  split; [exact Hbranch|]. split; [lra|]. split.
  - unfold sample_henyey_greenstein.
    rewrite (bool_decide_eq_false_2 _ Hbranch). cbn.
    rewrite py_div_zero by lra. reflexivity.
  - vm_compute. reflexivity.
Qed.

End SamplerFacts.

(** ** The photon and the driver *)

Module SimulationFacts.
Import Mesh Photon Simulation Vocabulary.

#[local] Arguments py_index : simpl never.
#[local] Arguments py_setitem : simpl never.
#[local] Arguments py_getitem : simpl never.
#[local] Arguments get_layer_index : simpl never.
#[local] Arguments outside : simpl never.
#[local] Arguments free_path : simpl never.

Ltac invert_bind H :=
  let x := fresh "x" in
  let Hx := fresh "Hx" in
  apply bind_Ok in H as (x & Hx & H).

Lemma py_index_elem {A} (l : list A) (i : Z) (x : A) :
  py_index l i = Ok x -> x ∈ l.
Proof.
  unfold py_index. destruct (_ && _)%bool; [|discriminate].
  destruct (l !! _) eqn:Hget; [|discriminate].
  intros [= <-]. eapply list_elem_of_lookup_2. exact Hget.
Qed.

Lemma py_index_inv {A} (l : list A) (i : Z) (x : A) :
  (0 <= i)%Z -> py_index l i = Ok x -> l !! Z.to_nat i = Some x.
Proof.
  intros Hi. unfold py_index. destruct (Z.ltb_spec i 0); [lia|].
  destruct (_ && _)%bool; [|discriminate].
  destruct (l !! _); [|discriminate]. congruence.
Qed.

Lemma py_getitem_inv (d : gmap string R) (key : string) (v : R) :
  py_getitem d key = Ok v -> d !! key = Some v.
Proof. unfold py_getitem. destruct (d !! key); [congruence|discriminate]. Qed.

Lemma py_getitem_Some (d : gmap string R) (key : string) (v : R) :
  d !! key = Some v -> py_getitem d key = Ok v.
Proof. unfold py_getitem. intros ->. reflexivity. Qed.

Lemma free_path_inv (u mu_s step : R) :
  free_path u mu_s = Ok step -> 0 < u /\ mu_s <> 0 /\ step = - ln u / mu_s.
Proof.
  unfold free_path. repeat case_bool_decide; try discriminate.
  intros [= <-]. repeat split; [lra|assumption].
Qed.

Lemma free_path_Ok (u mu_s : R) :
  0 < u -> mu_s <> 0 -> free_path u mu_s = Ok (- ln u / mu_s).
Proof.
  intros Hu Hs. unfold free_path.
  rewrite bool_decide_eq_false_2 by lra.
  rewrite bool_decide_eq_false_2 by assumption. reflexivity.
Qed.

Lemma outside_true (mesh : LayeredMesh) (z first final : R) :
  head (_layer_boundaries mesh) = Some first ->
  last (_layer_boundaries mesh) = Some final ->
  z < first \/ z > final -> outside mesh z = Ok true.
Proof.
  intros Hfirst Hfinal Hout. unfold outside.
  rewrite (py_index_head _ _ Hfirst). cbn.
  case_bool_decide; [reflexivity|].
  rewrite (py_index_last _ _ Hfinal). cbn.
  rewrite bool_decide_eq_true_2; [reflexivity|]. destruct Hout; [contradiction|assumption].
Qed.

Lemma outside_false (mesh : LayeredMesh) (z first final : R) :
  head (_layer_boundaries mesh) = Some first ->
  last (_layer_boundaries mesh) = Some final ->
  first <= z <= final -> outside mesh z = Ok false.
Proof.
  intros Hfirst Hfinal Hin. unfold outside.
  rewrite (py_index_head _ _ Hfirst). cbn.
  rewrite bool_decide_eq_false_2 by lra.
  rewrite (py_index_last _ _ Hfinal). cbn.
  rewrite bool_decide_eq_false_2 by lra. reflexivity.
Qed.

Lemma check_weight_weight (self : Photon) (threshold : R) :
  weight (check_weight self threshold) = weight self.
Proof. unfold check_weight. case_bool_decide; reflexivity. Qed.

(** A pass at a depth outside the mesh only clears [alive]. *)
Lemma iteration_escape (mesh : LayeredMesh) (st : trial_state) (pos : vec3)
    (first final : R) :
  last (path (photon st)) = Some pos ->
  head (_layer_boundaries mesh) = Some first ->
  last (_layer_boundaries mesh) = Some final ->
  vz pos < first \/ vz pos > final ->
  iteration mesh st
  = Ok (mkTrial (set_alive false (photon st)) (profile st) (rng st)).
Proof.
  intros Hpos Hfirst Hfinal Hout. unfold iteration.
  rewrite (py_index_last _ _ Hpos). cbn.
  rewrite (outside_true _ _ _ _ Hfirst Hfinal Hout). reflexivity.
Qed.

(** A pass at a depth inside the mesh, in the order of the source: free
    path from one draw and the layer's [mu_s], move, deposit with the
    weight as it was, rescale. *)
Lemma iteration_inside (mesh : LayeredMesh) (st : trial_state) (pos : vec3)
    (first final : R) (i : nat) (props : gmap string R)
    (u mu_s mu_a slot : R) (rest : list R) :
  last (path (photon st)) = Some pos ->
  head (_layer_boundaries mesh) = Some first ->
  last (_layer_boundaries mesh) = Some final ->
  first <= vz pos <= final ->
  get_layer_index mesh (vz pos) = Ok (Z.of_nat i) ->
  _layer_properties mesh !! i = Some props ->
  rng st = u :: rest -> 0 < u ->
  props !! "mu_s"%string = Some mu_s -> mu_s <> 0 ->
  props !! "mu_a"%string = Some mu_a ->
  profile st !! i = Some slot ->
  iteration mesh st
  = Ok (mkTrial
          (advanced (photon st) pos mu_a (- ln u / mu_s))
          (<[i := slot + weight (photon st) * mu_a * (- ln u / mu_s)]>
             (profile st))
          rest).
Proof.
  intros Hpos Hfirst Hfinal Hin Hlayer Hprops Hrng Hu Hs Hs0 Ha Hslot.
  unfold iteration.
  rewrite (py_index_last _ _ Hpos). cbn.
  rewrite (outside_false _ _ _ _ Hfirst Hfinal Hin). cbn.
  rewrite Hlayer. cbn.
  rewrite (py_index_nat _ _ _ Hprops). cbn.
  rewrite Hrng. cbn.
  rewrite (py_getitem_Some _ _ _ Hs). cbn.
  rewrite (free_path_Ok _ _ Hu Hs0). cbn.
  unfold move. rewrite (py_index_last _ _ Hpos). cbn.
  rewrite (py_index_nat _ _ _ Hslot). cbn.
  rewrite (py_getitem_Some _ _ _ Ha). cbn.
  rewrite py_setitem_nat by (eapply lookup_lt_Some; exact Hslot). cbn.
  unfold advanced, check_weight. cbn.
  case_bool_decide; cbn; rewrite ?andb_true_r, ?andb_false_r; reflexivity.
Qed.

(** The two ways in which a pass can complete. *)
Lemma iteration_inv (mesh : LayeredMesh) (st st' : trial_state) :
  iteration mesh st = Ok st' ->
  st' = mkTrial (set_alive false (photon st)) (profile st) (rng st)
  \/ exists pos i props u rest mu_s mu_a slot profile',
       py_index (path (photon st)) (-1) = Ok pos /\
       outside mesh (vz pos) = Ok false /\
       get_layer_index mesh (vz pos) = Ok i /\
       py_index (_layer_properties mesh) i = Ok props /\
       rng st = u :: rest /\ 0 < u /\
       props !! "mu_s"%string = Some mu_s /\ mu_s <> 0 /\
       props !! "mu_a"%string = Some mu_a /\
       py_index (profile st) i = Ok slot /\
       py_setitem (profile st) i
         (slot + weight (photon st) * mu_a * (- ln u / mu_s)) = Ok profile' /\
       st' = mkTrial (advanced (photon st) pos mu_a (- ln u / mu_s))
               profile' rest.
Proof.
  unfold iteration. intros H.
  invert_bind H. rename x into pos, Hx into Hpos.
  invert_bind H. destruct x; [left; congruence|]. rename Hx into Hout.
  invert_bind H. rename x into i, Hx into Hlayer.
  invert_bind H. rename x into props, Hx into Hprops.
  invert_bind H. destruct x as [u rest]. rename Hx into Hdraw.
  invert_bind H. rename x into mu_s, Hx into Hs.
  invert_bind H. rename x into step, Hx into Hstep.
  invert_bind H. rename x into photon1, Hx into Hmove.
  invert_bind H. rename x into slot, Hx into Hslot.
  invert_bind H. rename x into mu_a, Hx into Ha.
  invert_bind H. rename x into profile', Hx into Hset.
  apply free_path_inv in Hstep as (Hu & Hs0 & ->).
  apply py_getitem_inv in Hs, Ha.
  unfold move in Hmove. rewrite Hpos in Hmove. cbn in Hmove.
  injection Hmove as <-.
  destruct (rng st) as [|u0 rest0] eqn:Hrng; [discriminate|].
  injection Hdraw as -> ->.
  right. exists pos, i, props, u, rest, mu_s, mu_a, slot, profile'.
  repeat (split; [assumption || reflexivity|]).
  rewrite check_weight_weight in Hset, H. cbn in Hset, H.
  split; [exact Hset|]. injection H as <-.
  unfold advanced, check_weight. cbn.
  case_bool_decide; cbn; rewrite ?andb_true_r, ?andb_false_r; reflexivity.
Qed.

(** *** The loop *)

Lemma while_alive_done (fuel : nat) (mesh : LayeredMesh) (st : trial_state) :
  alive (photon st) = false -> while_alive fuel mesh st = Ok st.
Proof. intros Hdead. destruct fuel; cbn; rewrite Hdead; reflexivity. Qed.

Lemma while_alive_pass (fuel : nat) (mesh : LayeredMesh) (st : trial_state) :
  alive (photon st) = true ->
  while_alive (S fuel) mesh st = iteration mesh st ≫= while_alive fuel mesh.
Proof. intros Halive. cbn. rewrite Halive. reflexivity. Qed.

(** A pass that completes either ends the trial without a draw or takes
    exactly one draw. *)
Lemma iteration_draws (mesh : LayeredMesh) (st st' : trial_state) :
  iteration mesh st = Ok st' ->
  (alive (photon st') = false /\ rng st' = rng st)
  \/ exists u, rng st = u :: rng st'.
Proof.
  intros H. apply iteration_inv in H as [->|H].
  - left. split; reflexivity.
  - destruct H as (pos & i & props & u & rest & mu_s & mu_a & slot & prof'
                   & _ & _ & _ & _ & Hrng & _ & _ & _ & _ & _ & _ & ->).
    right. exists u. exact Hrng.
Qed.

(** The bound that [trial_loop] puts on the passes is never what stops the
    loop: any larger bound gives the same outcome. *)
Lemma while_alive_fuel (fuel : nat) (mesh : LayeredMesh) (st : trial_state) :
  (length (rng st) < fuel)%nat ->
  while_alive fuel mesh st = trial_loop mesh st.
Proof.
  unfold trial_loop. revert st.
  induction fuel as [|fuel IH]; intros st Hfuel; [lia|].
  destruct (alive (photon st)) eqn:Halive.
  - rewrite !while_alive_pass by assumption.
    destruct (iteration mesh st) as [st1| | |] eqn:Hpass; try reflexivity.
    cbn. destruct (iteration_draws _ _ _ Hpass) as [[Hdead _]|[u Hrng]].
    + rewrite !while_alive_done by assumption. reflexivity.
    + rewrite Hrng in *. cbn in *. rewrite IH by lia. reflexivity.
  - rewrite !while_alive_done by assumption. reflexivity.
Qed.

(** A loop that completes has gone through the states of [reaches] and
    leaves a photon that is not alive. *)
Lemma while_alive_reaches (fuel : nat) (mesh : LayeredMesh)
    (st st' : trial_state) :
  while_alive fuel mesh st = Ok st' ->
  reaches mesh st st' /\ alive (photon st') = false.
Proof.
  revert st. induction fuel as [|fuel IH]; intros st H.
  - cbn in H. destruct (alive (photon st)) eqn:Halive; [discriminate|].
    injection H as <-. split; [constructor|assumption].
  - destruct (alive (photon st)) eqn:Halive.
    + rewrite while_alive_pass in H by assumption.
      invert_bind H. apply IH in H as [Hreach Hdead].
      split; [|assumption]. eapply reaches_pass; eassumption.
    + rewrite while_alive_done in H by assumption. injection H as <-.
      split; [constructor|assumption].
Qed.

(** What no pass changes: the photon's starting position and direction,
    the entries already on its path, and a cleared [alive]. *)
Lemma iteration_keeps (mesh : LayeredMesh) (st st' : trial_state) :
  iteration mesh st = Ok st' ->
  position (photon st') = position (photon st) /\
  direction (photon st') = direction (photon st) /\
  (exists more, path (photon st') = path (photon st) ++ more) /\
  (alive (photon st) = false -> alive (photon st') = false).
Proof.
  intros H. apply iteration_inv in H as [->|H].
  - cbn. split; [reflexivity|]. split; [reflexivity|]. split.
    + exists []. symmetry. apply app_nil_r.
    + reflexivity.
  - destruct H as (pos & i & props & u & rest & mu_s & mu_a & slot & prof'
                   & _ & _ & _ & _ & _ & _ & _ & _ & _ & _ & _ & ->).
    cbn. split; [reflexivity|]. split; [reflexivity|]. split.
    + eauto.
    + intros ->. reflexivity.
Qed.

Lemma reaches_keeps (mesh : LayeredMesh) (st st' : trial_state) :
  reaches mesh st st' ->
  position (photon st') = position (photon st) /\
  direction (photon st') = direction (photon st) /\
  (exists more, path (photon st') = path (photon st) ++ more).
Proof.
  induction 1 as [st|st st1 st' Halive Hpass Hreach IH].
  - split; [reflexivity|]. split; [reflexivity|].
    exists []. symmetry. apply app_nil_r.
  - destruct (iteration_keeps _ _ _ Hpass) as (Hp & Hd & (m1 & Hm1) & _).
    destruct IH as (Hp' & Hd' & (m2 & Hm2)).
    split; [congruence|]. split; [congruence|].
    exists (m1 ++ m2). rewrite Hm2, Hm1, app_assoc. reflexivity.
Qed.

Lemma trial_inv (self self' : MonteCarloSimulator) (draws draws' : list R) :
  trial self draws = Ok (self', draws') ->
  exists st,
    trial_loop (mesh self) (trial_start self draws) = Ok st /\
    self' = mkSimulator (mesh self) (num_photons self)
              (initial_photon_direction self)
              (photon_paths self ++ [path (photon st)]) (profile st) /\
    draws' = rng st.
Proof.
  unfold trial. fold (trial_start self draws). intros H.
  invert_bind H. injection H as <- <-. eauto.
Qed.

(** A live photon outside the mesh: the loop makes one pass, which clears
    [alive] and nothing else. *)
Lemma escape_pass (mesh : LayeredMesh) (first final : R) (st : trial_state)
    (pos : vec3) :
  head (_layer_boundaries mesh) = Some first ->
  last (_layer_boundaries mesh) = Some final ->
  last (path (photon st)) = Some pos ->
  vz pos < first \/ vz pos > final ->
  alive (photon st) = true ->
  trial_loop mesh st
  = Ok (mkTrial (set_alive false (photon st)) (profile st) (rng st)).
Proof.
  intros Hfirst Hfinal Hpos Hout Halive. unfold trial_loop.
  rewrite while_alive_pass by assumption.
  rewrite (iteration_escape mesh st pos first final Hpos Hfirst Hfinal Hout).
  cbn. apply while_alive_done. reflexivity.
Qed.

(** A trial whose photon starts outside the mesh records the starting
    position alone. *)
Lemma escape_trial (self : MonteCarloSimulator) (draws : list R)
    (first final : R) :
  head (_layer_boundaries (mesh self)) = Some first ->
  last (_layer_boundaries (mesh self)) = Some final ->
  vz (initial_photon_direction self) < first
  \/ vz (initial_photon_direction self) > final ->
  trial self draws
  = Ok (mkSimulator (mesh self) (num_photons self)
          (initial_photon_direction self)
          (photon_paths self ++ [[initial_photon_direction self]])
          (absorption_profile self),
        draws).
Proof.
  intros Hfirst Hfinal Hout. unfold trial.
  rewrite (escape_pass (mesh self) first final
             (mkTrial (init1 (initial_photon_direction self))
                (absorption_profile self) draws)
             (initial_photon_direction self)
             Hfirst Hfinal eq_refl Hout eq_refl).
  reflexivity.
Qed.

(** C8: when the depth of the last path position is below the first or
    above the last boundary, the pass takes no draw, adds no position and
    leaves the profile and the weight alone; it clears [alive], so the loop
    of a live photon ends right there.  With first boundary 0 a photon
    that starts at depth -1 ends its trial with a one-element path. *)
Theorem escape_ends_trial (mesh : LayeredMesh) (first final : R) :
  head (_layer_boundaries mesh) = Some first ->
  last (_layer_boundaries mesh) = Some final ->
  (forall (st : trial_state) (pos : vec3),
     last (path (photon st)) = Some pos ->
     vz pos < first \/ vz pos > final ->
     exists st',
       iteration mesh st = Ok st' /\
       rng st' = rng st /\
       path (photon st') = path (photon st) /\
       profile st' = profile st /\
       weight (photon st') = weight (photon st) /\
       alive (photon st') = false /\
       (alive (photon st) = true -> trial_loop mesh st = Ok st')) /\
  (first = 0 ->
   forall (self : MonteCarloSimulator) (draws : list R) (x y : R),
     Simulation.mesh self = mesh ->
     initial_photon_direction self = Vec3 x y (-1) ->
     trial self draws
     = Ok (mkSimulator mesh (num_photons self) (Vec3 x y (-1))
             (photon_paths self ++ [[Vec3 x y (-1)]])
             (absorption_profile self),
           draws)).
Proof.
  intros Hfirst Hfinal. split.
  - intros st pos Hpos Hout.
    exists (mkTrial (set_alive false (photon st)) (profile st) (rng st)).
    split; [apply (iteration_escape mesh st pos first final); assumption|].
    cbn. repeat (split; [reflexivity|]).
    apply (escape_pass mesh first final st pos); assumption.
  - intros -> self draws x y Hmesh Hdir. subst mesh.
    rewrite (escape_trial self draws 0 final Hfirst Hfinal).
    + rewrite Hdir. reflexivity.
    + left. rewrite Hdir. cbn. lra.
Qed.

(** Scenario D on the mesh with boundaries 0 and 10. *)
Lemma escape_ends_trial_witness :
  trial (Simulation.init (Samples.thick Samples.clear) 1 (Vec3 0 0 (-1))) [1 / 2]
  = Ok (mkSimulator (Samples.thick Samples.clear) 1 (Vec3 0 0 (-1))
          [[Vec3 0 0 (-1)]] [0],
        [1 / 2]).
Proof.
  apply (proj2 (escape_ends_trial (Samples.thick Samples.clear) 0 10
                  eq_refl eq_refl) eq_refl
           (Simulation.init (Samples.thick Samples.clear) 1 (Vec3 0 0 (-1)))
           [1 / 2] 0 0 eq_refl eq_refl).
Defined.

(** C9: a photon starts alive; [check_weight] clears [alive] exactly when
    the weight is below the threshold (0.001 unless given) and otherwise
    changes nothing; [move], [scatter] and [absorb] leave [alive] as it is;
    and neither an operation of the photon nor a pass of the driver's loop
    sets a cleared [alive] again. *)
Theorem alive_is_one_way :
  (forall position direction, alive (Photon.init position direction) = true) /\
  default_threshold = 1 / 1000 /\
  (forall self threshold,
     (weight self < threshold ->
        check_weight self threshold = set_alive false self) /\
     (~ weight self < threshold -> check_weight self threshold = self)) /\
  (forall self threshold,
     alive self = true ->
     (alive (check_weight self threshold) = false <-> weight self < threshold)) /\
  (forall self step_size self',
     move self step_size = Ok self' -> alive self' = alive self) /\
  (forall self g draws self' draws',
     scatter self g draws = Ok (self', draws') -> alive self' = alive self) /\
  (forall self mu_a step_size, alive (absorb self mu_a step_size) = alive self) /\
  (forall self threshold,
     alive self = false -> alive (check_weight self threshold) = false) /\
  (forall mesh st st',
     iteration mesh st = Ok st' ->
     alive (photon st) = false -> alive (photon st') = false).
Proof.
  repeat split.
  - intros Hlt. unfold check_weight. rewrite bool_decide_eq_true_2; done.
  - intros Hge. unfold check_weight. rewrite bool_decide_eq_false_2; done.
  - unfold check_weight. case_bool_decide; [done|]. cbn. congruence.
  - intros Hlt. unfold check_weight. rewrite bool_decide_eq_true_2; done.
  - intros self step_size self' H. unfold move in H.
    invert_bind H. injection H as <-. reflexivity.
  - intros self g draws self' draws' H. unfold scatter in H.
    invert_bind H. destruct x as [theta draws1].
    invert_bind H. destruct x as [u draws2].
    injection H as <- <-. reflexivity.
  - intros self threshold Hdead. unfold check_weight.
    case_bool_decide; [reflexivity|assumption].
  - intros mesh st st' Hpass. apply (iteration_keeps _ _ _ Hpass).
Qed.

(** *** Where the photon starts *)

(** C2: the photon that [run] builds for a trial has the simulator's
    [initial_photon_direction] as its position and as the only entry of its
    path, and the default (0, 0, 1) as its direction; so it is throughout
    the trial, and every recorded path begins with that vector, which for a
    unit vector is not the origin. *)
Theorem photon_starts_at_initial_direction (self : MonteCarloSimulator)
    (draws : list R) :
  let start := trial_start self draws in
  position (photon start) = initial_photon_direction self /\
  path (photon start) = [initial_photon_direction self] /\
  direction (photon start) = Vec3 0 0 1 /\
  trial self draws
  = (st ← trial_loop (mesh self) start;
     Ok (mkSimulator (mesh self) (num_photons self)
           (initial_photon_direction self)
           (photon_paths self ++ [path (photon st)]) (profile st),
         rng st)) /\
  (forall st, reaches (mesh self) start st ->
     position (photon st) = initial_photon_direction self /\
     head (path (photon st)) = Some (initial_photon_direction self) /\
     direction (photon st) = Vec3 0 0 1) /\
  (forall self' draws', trial self draws = Ok (self', draws') ->
     exists recorded,
       photon_paths self' = photon_paths self ++ [recorded] /\
       head recorded = Some (initial_photon_direction self)) /\
  (vx (initial_photon_direction self) ^ 2
   + vy (initial_photon_direction self) ^ 2
   + vz (initial_photon_direction self) ^ 2 = 1 ->
   position (photon start) <> Vec3 0 0 0).
Proof.
  intros start.
  assert (Hreach : forall st, reaches (mesh self) start st ->
            position (photon st) = initial_photon_direction self /\
            head (path (photon st)) = Some (initial_photon_direction self) /\
            direction (photon st) = Vec3 0 0 1).
  { intros st Hst.
    destruct (reaches_keeps _ _ _ Hst) as (Hp & Hd & (more & Hmore)).
    split; [exact Hp|]. split; [|exact Hd]. rewrite Hmore. reflexivity. }
  split; [reflexivity|]. split; [reflexivity|]. split; [reflexivity|].
  split; [reflexivity|]. split; [exact Hreach|]. split.
  - intros self' draws' Htrial.
    apply trial_inv in Htrial as (st & Hloop & -> & _).
    apply while_alive_reaches in Hloop as [Hst _].
    exists (path (photon st)). split; [reflexivity|]. apply (Hreach st Hst).
  - intros Hunit Horigin. cbn in Horigin. rewrite Horigin in Hunit.
    cbn in Hunit. lra.
Qed.

(** *** Direction *)

(** C1, on a simulator built with [initial_photon_direction = (1, 0, 0)]:
    throughout every trial the photon's direction is the default
    (0, 0, 1) and not the direction given to the simulator. *)
Theorem direction_is_default_not_initial (draws : list R) (st : trial_state) :
  let self := Simulation.init (Samples.thick Samples.clear) 1 (Vec3 1 0 0) in
  reaches (mesh self) (trial_start self draws) st ->
  direction (photon st) = Vec3 0 0 1 /\
  direction (photon st) <> initial_photon_direction self.
Proof.
  intros self Hst.
  destruct (reaches_keeps _ _ _ Hst) as (_ & Hd & _).
  rewrite Hd. cbn. split; [reflexivity|].
  intros Heq. injection Heq as Hx _. lra.
Qed.

Lemma direction_is_default_not_initial_witness :
  direction (init1 (Vec3 1 0 0)) = Vec3 0 0 1 /\
  direction (init1 (Vec3 1 0 0)) <> Vec3 1 0 0.
Proof.
  apply (direction_is_default_not_initial [1 / 2]
           (trial_start
              (Simulation.init (Samples.thick Samples.clear) 1 (Vec3 1 0 0))
              [1 / 2])).
  apply reaches_here.
Defined.

(** *** Concrete passes *)

Lemma pair_increasing (a b : R) : a < b -> strictly_increasing [a; b].
Proof.
  intros Hab i j x y Hi Hj Hij.
  destruct i as [|[|i]]; destruct j as [|[|j]];
    cbn in Hi, Hj; try discriminate; try lia.
  injection Hi as <-. injection Hj as <-. exact Hab.
Qed.

Lemma thick_first_layer (props : gmap string R) (z : R) :
  0 <= z < 10 -> get_layer_index (Samples.thick props) z = Ok 0%Z.
Proof.
  intros Hz.
  apply (MeshFacts.get_layer_index_layer (Samples.thick props) z 0 0 10);
    [|reflexivity..|exact Hz].
  apply MeshFacts.strictly_increasing_sorted, pair_increasing. lra.
Qed.

Lemma slab_last_layer (props : gmap string R) :
  get_layer_index (Samples.slab props) 1 = Ok 1%Z.
Proof.
  apply (MeshFacts.get_layer_index_last (Samples.slab props) 0 1);
    [|reflexivity..].
  apply MeshFacts.strictly_increasing_sorted, pair_increasing. lra.
Qed.

Lemma exp_minus_one : 0 < exp (-1) < 1.
Proof.
  split; [apply exp_pos|]. rewrite <- exp_0. apply exp_increasing. lra.
Qed.

Lemma unit_free_path : - ln (exp (-1)) / 1 = 1.
Proof. rewrite ln_exp. lra. Qed.

(** The first pass of a trial in the mesh with boundaries 0 and 10, with
    the default initial direction and the draw [exp (-1)]: the free path is
    1, the photon goes from depth 1 to depth 2. *)
Lemma thick_first_pass (props : gmap string R) (mu_a : R) (rest : list R) :
  props !! "mu_s"%string = Some 1 -> props !! "mu_a"%string = Some mu_a ->
  let self := Simulation.init (Samples.thick props) 1
                default_initial_photon_direction in
  iteration (Samples.thick props) (trial_start self (exp (-1) :: rest))
  = Ok (mkTrial
          (mkPhoton (Vec3 0 0 1) (Vec3 0 0 1)
             [Vec3 0 0 1; Vec3 (0 + 0 * 1) (0 + 0 * 1) (1 + 1 * 1)]
             (1 * (1 - mu_a * 1)) true)
          [0 + 1 * mu_a * 1] rest).
Proof.
  intros Hs Ha self.
  rewrite (iteration_inside (Samples.thick props) _ (Vec3 0 0 1) 0 10 0 props
             (exp (-1)) 1 mu_a 0 rest);
    try reflexivity; try assumption.
  - rewrite unit_free_path. unfold advanced. cbn.
    rewrite bool_decide_eq_false_2 by (unfold default_threshold; lra).
    reflexivity.
  - cbn. lra.
  - apply thick_first_layer. cbn. lra.
  - apply exp_minus_one.
  - lra.
Qed.

(** *** The last boundary *)

(** C3, on the mesh with boundaries 0 and 1 and the default initial
    direction: the photon starts at depth 1, the last boundary, which the
    test of the loop counts as inside; the pass looks up layer 1, samples the
    free path and moves, and then raises [IndexError] at the deposit,
    because the profile has one entry only.  Nothing is deposited, the
    weight is not rescaled, and [run] ends with the exception. *)
Theorem run_raises_at_last_boundary :
  let self := Simulation.init (Samples.slab Samples.clear) 1
                default_initial_photon_direction in
  last (path (photon (trial_start self [1 / 2]))) = Some (Vec3 0 0 1) /\
  outside (mesh self) 1 = Ok false /\
  get_layer_index (mesh self) 1 = Ok 1%Z /\
  absorption_profile self = [0] /\
  iteration (mesh self) (trial_start self [1 / 2]) = Raise IndexError /\
  run self [1 / 2] = Raise IndexError.
Proof.
  intros self.
  assert (Hout : outside (mesh self) 1 = Ok false).
  { apply (outside_false _ _ 0 1); [reflexivity..|lra]. }
  assert (Hlayer : get_layer_index (mesh self) 1 = Ok 1%Z)
    by apply slab_last_layer.
  assert (Hpass : iteration (mesh self) (trial_start self [1 / 2])
                  = Raise IndexError).
  { unfold iteration.
    rewrite (py_index_last (path (photon (trial_start self [1 / 2])))
               (Vec3 0 0 1) eq_refl).
    cbn -[self]. rewrite Hout. cbn -[self].
    rewrite Hlayer. cbn -[self].
    rewrite (py_index_nat (_layer_properties (mesh self)) 1 Samples.clear
               eq_refl
             : py_index (_layer_properties (mesh self)) 1%Z = Ok Samples.clear).
    cbn -[self]. rewrite (py_getitem_Some Samples.clear "mu_s" 1 eq_refl).
    cbn -[self]. rewrite free_path_Ok by lra. cbn -[self].
    unfold move.
    rewrite (py_index_last (path (init1 (initial_photon_direction self)))
               (Vec3 0 0 1) eq_refl).
    cbn -[self].
    rewrite (py_index_overflow (absorption_profile self) 1) by (cbn; lia).
    reflexivity. }
  split; [reflexivity|]. split; [exact Hout|].
  split; [exact Hlayer|]. split; [reflexivity|].
  split; [exact Hpass|].
  unfold run. cbn [num_photons self Simulation.init run_photons].
  unfold trial. fold self. fold (trial_start self [1 / 2]).
  unfold trial_loop. rewrite while_alive_pass by reflexivity.
  rewrite Hpass. reflexivity.
Qed.

(** *** Weight *)

Lemma free_path_nonneg (u mu_s : R) :
  0 < u <= 1 -> 0 < mu_s -> 0 <= - ln u / mu_s.
Proof.
  intros [Hu Hu1] Hs.
  assert (ln u <= 0).
  { destruct Hu1 as [Hlt| ->]; [|rewrite ln_1; lra].
    rewrite <- ln_1. apply Rlt_le, ln_increasing; assumption. }
  apply Rmult_le_pos; [lra|]. apply Rlt_le, Rinv_0_lt_compat. exact Hs.
Qed.

(** One pass with a short step, in a mesh of non-negative [mu_a] and
    positive [mu_s]. *)
Lemma iteration_weight (mesh : LayeredMesh) (st st' : trial_state) :
  physical mesh -> uniform (rng st) -> short_step mesh st ->
  0 <= weight (photon st) <= 1 ->
  iteration mesh st = Ok st' ->
  0 <= weight (photon st') <= weight (photon st) /\ uniform (rng st').
Proof.
  intros Hphys Huniform Hshort Hw H. apply iteration_inv in H as [->|H].
  - cbn. split; [lra|exact Huniform].
  - destruct H as (pos & i & props & u & rest & mu_s & mu_a & slot & prof'
                   & Hpos & _ & Hlayer & Hprops & Hrng & Hu & Hs & _ & Ha
                   & _ & _ & ->).
    pose proof (Hshort pos i props u rest mu_s mu_a Hpos Hlayer Hprops Hrng
                  Hs Ha) as Hstep.
    apply py_index_elem in Hprops.
    destruct (Hphys props Hprops) as [Hmu_a Hmu_s].
    specialize (Hmu_a mu_a Ha). specialize (Hmu_s mu_s Hs).
    rewrite Hrng in Huniform.
    pose proof (Huniform u (list_elem_of_here _ _)) as Hu1.
    pose proof (free_path_nonneg u mu_s ltac:(lra) Hmu_s) as Hpath.
    cbn. split.
    + assert (0 <= mu_a * (- ln u / mu_s)) by (apply Rmult_le_pos; lra).
      split; nra.
    + intros v Hv. apply Huniform. apply list_elem_of_further. exact Hv.
Qed.

Lemma reaches_short_weight (mesh : LayeredMesh) (st st' : trial_state) :
  physical mesh -> reaches_short mesh st st' ->
  uniform (rng st) -> 0 <= weight (photon st) <= 1 ->
  uniform (rng st') /\ 0 <= weight (photon st') <= weight (photon st).
Proof.
  intros Hphys.
  induction 1 as [st|st st1 st' Halive Hshort Hpass Hreach IH];
    intros Huniform Hw.
  - split; [exact Huniform|lra].
  - destruct (iteration_weight _ _ _ Hphys Huniform Hshort Hw Hpass)
      as [Hw1 Hu1].
    destruct IH as [Hu' Hw']; [exact Hu1|lra|]. split; [exact Hu'|lra].
Qed.

(** C6, as amended: in a mesh whose layers all have [mu_a >= 0] and
    [mu_s > 0], the weight of the photon of a trial starts at 1 and, as long
    as every pass samples a free path with [mu_a * step <= 1] in its layer,
    stays in [0, 1] and does not grow from one pass of the loop to the
    next. *)
Theorem weight_decays_within_trial (self : MonteCarloSimulator)
    (draws : list R) (st : trial_state) :
  physical (mesh self) -> uniform draws ->
  reaches_short (mesh self) (trial_start self draws) st ->
  weight (photon (trial_start self draws)) = 1 /\
  0 <= weight (photon st) <= 1 /\
  (forall st', alive (photon st) = true -> short_step (mesh self) st ->
     iteration (mesh self) st = Ok st' ->
     0 <= weight (photon st') <= weight (photon st)).
Proof.
  intros Hphys Huniform Hst.
  destruct (reaches_short_weight _ _ _ Hphys Hst) as [Hu Hw];
    [exact Huniform|cbn; lra|].
  cbn in Hw. split; [reflexivity|]. split; [lra|].
  intros st' _ Hshort Hpass.
  apply (iteration_weight _ _ _ Hphys Hu Hshort ltac:(lra) Hpass).
Qed.

Lemma sample_physical (props : gmap string R) (mu_s mu_a : R) :
  props !! "mu_s"%string = Some mu_s -> props !! "mu_a"%string = Some mu_a ->
  0 < mu_s -> 0 <= mu_a ->
  physical (Samples.thick props).
Proof.
  intros Hs Ha Hmu_s Hmu_a p Hp. cbn in Hp.
  assert (p = props) as ->.
  { repeat (apply elem_of_cons in Hp as [->|Hp]; [reflexivity|]).
    apply elem_of_nil in Hp. contradiction. }
  split; intros v Hv; congruence.
Qed.

(** In the weakly absorbing mesh (mu_a = 1/2, mu_s = 1) with the draw
    [exp (-1)]: the state after the first pass, with weight 1/2. *)
Lemma weight_decays_within_trial_witness :
  let self := Simulation.init (Samples.thick Samples.clear) 1
                default_initial_photon_direction in
  weight (photon (trial_start self [exp (-1)])) = 1 /\
  0 <= 1 * (1 - 1 / 2 * 1) <= 1.
Proof.
  intros self.
  pose proof (thick_first_pass Samples.clear (1 / 2) [] eq_refl eq_refl) as Hpass.
  cbv zeta in Hpass.
  destruct (weight_decays_within_trial self [exp (-1)]
              (mkTrial
                 (mkPhoton (Vec3 0 0 1) (Vec3 0 0 1)
                    [Vec3 0 0 1; Vec3 (0 + 0 * 1) (0 + 0 * 1) (1 + 1 * 1)]
                    (1 * (1 - 1 / 2 * 1)) true)
                 [0 + 1 * (1 / 2) * 1] [])
              (sample_physical Samples.clear 1 (1 / 2) eq_refl eq_refl
                 ltac:(lra) ltac:(lra))) as (Hone & Hw & _).
  - intros u Hu. apply list_elem_of_singleton in Hu as ->.
    pose proof exp_minus_one. lra.
  - eapply short_pass; [reflexivity| |exact Hpass|apply short_here].
    intros pos i props u rest mu_s mu_a _ _ Hprops Hrng Hs Ha.
    apply py_index_elem in Hprops. cbn in Hprops, Hrng.
    assert (props = Samples.clear) as ->.
    { repeat (apply elem_of_cons in Hprops as [->|Hprops]; [reflexivity|]).
      apply elem_of_nil in Hprops. contradiction. }
    injection Hrng as <- <-.
    assert (mu_s = 1) as ->.
    { enough (Some mu_s = Some 1) by congruence. rewrite <- Hs. reflexivity. }
    assert (mu_a = 1 / 2) as ->.
    { enough (Some mu_a = Some (1 / 2)) by congruence. rewrite <- Ha.
      reflexivity. }
    rewrite unit_free_path. lra.
  - split; [exact Hone|exact Hw].
Defined.

(** C6 as stated fails: in the strongly absorbing mesh (mu_a = 2, mu_s = 1)
    the draw [exp (-1)] gives a free path of 1, and the first pass rescales
    the weight by [1 - 2 * 1], to -1. *)
Lemma weight_turns_negative :
  ~ (forall (self : MonteCarloSimulator) (draws : list R) (st : trial_state),
       physical (mesh self) ->
       uniform draws ->
       reaches (mesh self) (trial_start self draws) st ->
       0 <= weight (photon st) <= 1).
Proof.
  intros Hclaim.
  pose proof (thick_first_pass Samples.dense 2 [] eq_refl eq_refl) as Hpass.
  cbv zeta in Hpass.
  specialize (Hclaim
    (Simulation.init (Samples.thick Samples.dense) 1
       default_initial_photon_direction)
    [exp (-1)]
    (mkTrial
       (mkPhoton (Vec3 0 0 1) (Vec3 0 0 1)
          [Vec3 0 0 1; Vec3 (0 + 0 * 1) (0 + 0 * 1) (1 + 1 * 1)]
          (1 * (1 - 2 * 1)) true)
       [0 + 1 * 2 * 1] [])
    (sample_physical Samples.dense 1 2 eq_refl eq_refl ltac:(lra) ltac:(lra))).
  destruct Hclaim as [Hneg _].
  - intros u Hu. apply list_elem_of_singleton in Hu as ->.
    pose proof exp_minus_one. lra.
  - eapply reaches_pass; [reflexivity|exact Hpass|apply reaches_here].
  - cbn in Hneg. lra.
Qed.

(** The weight can also grow: a second pass with the same draw takes it
    from -1 back to 1. *)
Example weight_grows :
  exists st1 st2,
    iteration (Samples.thick Samples.dense)
      (trial_start (Simulation.init (Samples.thick Samples.dense) 1
                      default_initial_photon_direction)
         [exp (-1); exp (-1)]) = Ok st1 /\
    alive (photon st1) = true /\
    iteration (Samples.thick Samples.dense) st1 = Ok st2 /\
    weight (photon st1) = -1 /\ weight (photon st2) = 1.
Proof.
  eexists. eexists. split; [|split; [|split]].
  - apply (thick_first_pass Samples.dense 2 [exp (-1)] eq_refl eq_refl).
  - reflexivity.
  - apply (iteration_inside (Samples.thick Samples.dense) _
             (Vec3 (0 + 0 * 1) (0 + 0 * 1) (1 + 1 * 1)) 0 10 0 Samples.dense
             (exp (-1)) 1 2 (0 + 1 * 2 * 1) []);
      try reflexivity.
    + cbn. lra.
    + apply thick_first_layer. cbn. lra.
    + apply exp_minus_one.
    + lra.
  - cbn. rewrite unit_free_path. split; lra.
Qed.

(** *** The collected paths *)

Lemma zeros_like_init_replicate (a : list R) :
  zeros_like_init a = replicate (length a - 1) 0.
Proof.
  unfold zeros_like_init.
  rewrite (const_fmap (fun _ => 0) (take (length a - 1) a) 0) by reflexivity.
  rewrite length_take. f_equal. lia.
Qed.

(** [k] trials append [k] paths, in the order of the trials: the path at
    place [k] is the one recorded by the trial that follows the first [k]
    trials. *)
Lemma run_photons_paths (n : nat) (self self' : MonteCarloSimulator)
    (draws draws' : list R) :
  run_photons n self draws = Ok (self', draws') ->
  exists recorded,
    photon_paths self' = photon_paths self ++ recorded /\
    length recorded = n /\
    mesh self' = mesh self /\
    num_photons self' = num_photons self /\
    initial_photon_direction self' = initial_photon_direction self /\
    forall k, (k < n)%nat ->
      exists self_k draws_k self_k' draws_k' path_k,
        run_photons k self draws = Ok (self_k, draws_k) /\
        trial self_k draws_k = Ok (self_k', draws_k') /\
        photon_paths self_k' = photon_paths self_k ++ [path_k] /\
        recorded !! k = Some path_k.
Proof.
  revert self draws. induction n as [|n IH]; intros self draws H.
  - injection H as <- <-. exists []. rewrite app_nil_r.
    repeat (split; [reflexivity|]). intros k Hk. lia.
  - cbn in H. invert_bind H. destruct x as [self1 draws1].
    destruct (trial_inv _ _ _ _ Hx) as (st & _ & Hself1 & _).
    apply IH in H as (recorded & Hpaths & Hlen & Hmesh & Hnum & Hdir & Hkth).
    exists (path (photon st) :: recorded).
    rewrite Hpaths, Hmesh, Hnum, Hdir, Hself1. cbn.
    split; [rewrite <- app_assoc; reflexivity|].
    split; [lia|]. repeat (split; [reflexivity|]).
    intros [|k] Hk.
    + exists self, draws, self1, draws1, (path (photon st)).
      split; [reflexivity|]. split; [exact Hx|].
      split; [rewrite Hself1; reflexivity|reflexivity].
    + destruct (Hkth k ltac:(lia))
        as (self_k & draws_k & self_k' & draws_k' & path_k
            & Hrun & Htrial & Happ & Hget).
      exists self_k, draws_k, self_k', draws_k', path_k.
      split; [cbn; rewrite Hx; exact Hrun|].
      split; [exact Htrial|]. split; [exact Happ|exact Hget].
Qed.

(** C10: a run that completes has appended one path per trial, in the
    order in which the trials were made, so a newly built simulator ends
    with exactly [num_photons] paths; with [num_photons = 0] the run
    completes at once, with no path and with a profile of zeros that has one
    entry less than there are boundaries. *)
Theorem run_collects_one_path_per_trial :
  (forall self draws self' draws',
     run self draws = Ok (self', draws') ->
     exists recorded,
       photon_paths self' = photon_paths self ++ recorded /\
       length recorded = num_photons self /\
       forall k, (k < num_photons self)%nat ->
         exists self_k draws_k self_k' draws_k' path_k,
           run_photons k self draws = Ok (self_k, draws_k) /\
           trial self_k draws_k = Ok (self_k', draws_k') /\
           photon_paths self_k' = photon_paths self_k ++ [path_k] /\
           recorded !! k = Some path_k) /\
  (forall mesh n direction draws self' draws',
     run (Simulation.init mesh n direction) draws = Ok (self', draws') ->
     length (photon_paths self') = n) /\
  (forall mesh direction draws,
     run (Simulation.init mesh 0 direction) draws
     = Ok (Simulation.init mesh 0 direction, draws) /\
     photon_paths (Simulation.init mesh 0 direction) = [] /\
     absorption_profile (Simulation.init mesh 0 direction)
     = replicate (length (_layer_boundaries mesh) - 1) 0 /\
     length (absorption_profile (Simulation.init mesh 0 direction))
     = (length (_layer_boundaries mesh) - 1)%nat).
Proof.
  split; [|split].
  - intros self draws self' draws' H. unfold run in H.
    apply run_photons_paths in H
      as (recorded & Hpaths & Hlen & _ & _ & _ & Hkth).
    exists recorded. split; [exact Hpaths|]. split; [exact Hlen|exact Hkth].
  - intros mesh n direction draws self' draws' H. unfold run in H.
    apply run_photons_paths in H as (recorded & Hpaths & Hlen & _).
    rewrite Hpaths. cbn. exact Hlen.
  - intros mesh direction draws. split; [reflexivity|]. split; [reflexivity|].
    cbn. rewrite zeros_like_init_replicate. split; [reflexivity|].
    apply length_replicate.
Qed.

(** Two photons that start below the mesh with boundaries 0 and 10: the
    run completes with two one-element paths. *)
Lemma run_collects_one_path_per_trial_witness :
  run (Simulation.init (Samples.thick Samples.clear) 2 (Vec3 0 0 (-1))) []
  = Ok (mkSimulator (Samples.thick Samples.clear) 2 (Vec3 0 0 (-1))
          [[Vec3 0 0 (-1)]; [Vec3 0 0 (-1)]] [0],
        []) /\
  length [[Vec3 0 0 (-1)]; [Vec3 0 0 (-1)]] = 2%nat.
Proof.
  assert (Hrun : run (Simulation.init (Samples.thick Samples.clear) 2
                        (Vec3 0 0 (-1))) []
                 = Ok (mkSimulator (Samples.thick Samples.clear) 2
                         (Vec3 0 0 (-1))
                         [[Vec3 0 0 (-1)]; [Vec3 0 0 (-1)]] [0],
                       [])).
  { unfold run. cbn [num_photons Simulation.init run_photons].
    fold (Simulation.init (Samples.thick Samples.clear) 2 (Vec3 0 0 (-1))).
    rewrite (escape_trial _ _ 0 10)
      by first [reflexivity | left; cbn; lra].
    cbn [mbind outcome_bind].
    rewrite (escape_trial _ _ 0 10)
      by first [reflexivity | left; cbn; lra].
    reflexivity. }
  split; [exact Hrun|].
  exact (proj1 (proj2 run_collects_one_path_per_trial)
           (Samples.thick Samples.clear) 2%nat (Vec3 0 0 (-1)) [] _ _ Hrun).
Defined.

End SimulationFacts.

(** * Further properties *)

(** ** The mesh as [add_layer] builds it *)

Module MeshExtras.
Import Mesh Vocabulary MeshFacts.

#[local] Arguments py_index : simpl never.
#[local] Arguments get_layer_index : simpl never.

Lemma snoc_increasing (b : list R) (x : R) :
  strictly_increasing b ->
  (forall final, last b = Some final -> final < x) ->
  strictly_increasing (b ++ [x]).
Proof.
  intros Hb Habove i j y1 y2 Hi Hj Hij.
  apply lookup_snoc_Some in Hi as [[Hilt Hi]|[-> <-]];
    apply lookup_snoc_Some in Hj as [[Hjlt Hj]|[-> <-]]; try lia.
  - apply (Hb i j); assumption.
  - destruct (last b) as [final|] eqn:Hfinal;
      [|apply last_None in Hfinal; subst b; cbn in Hilt; lia].
    specialize (Habove final eq_refl).
    apply Rle_lt_trans with final; [|exact Habove].
    rewrite last_lookup in Hfinal.
    apply (strictly_increasing_sorted b Hb i (pred (length b)));
      [assumption..|lia].
Qed.

Lemma add_layer_well_formed (self : LayeredMesh) (boundary : R)
    (properties : gmap string R) :
  well_formed self -> well_formed (add_layer self boundary properties).2.
Proof.
  intros (Hincr & Hlen & Hkeys).
  destruct (add_layer_cases self boundary properties)
    as [->|(-> & Habove & Hfull)]; cbn [snd].
  - repeat split; assumption.
  - split; [|split]; cbn.
    + apply snoc_increasing; assumption.
    + rewrite !length_app. cbn. lia.
    + intros props Hprops. apply elem_of_app in Hprops as [Hprops|Hprops].
      * apply Hkeys. exact Hprops.
      * apply list_elem_of_singleton in Hprops as ->. exact Hfull.
Qed.

(** X1: whatever layers are offered to a new mesh, in whatever order and with
    whatever records, the mesh stays well formed: the boundaries strictly
    increase, there is one record per boundary, and every record has the
    keys ["n"], ["mu_s"], ["mu_a"] and ["g"]. *)
Theorem built_well_formed (calls : list (R * gmap string R)) :
  well_formed (built calls).
Proof.
  unfold built.
  assert (Hinit : well_formed Mesh.init).
  { split; [|split].
    - intros i j x y Hi. discriminate.
    - reflexivity.
    - intros props Hprops. apply elem_of_nil in Hprops. contradiction. }
  revert Hinit. generalize Mesh.init as m.
  induction calls as [|[boundary properties] calls IH]; intros m Hm.
  - exact Hm.
  - cbn [foldl]. apply IH. apply add_layer_well_formed. exact Hm.
Qed.

(** X2: in a well-formed mesh that has at least one boundary, the first
    being [first] and the last [final], [get_properties_at] returns at every
    depth: between [first] and [final], both included, it returns the record
    stored at the index that [get_layer_index] gives, a record with all four
    keys, and outside it returns [None].  (A mesh with no boundary is the
    other case: there the lookup raises.) *)
Theorem get_properties_at_well_formed (self : LayeredMesh)
    (z first final : R) :
  well_formed self ->
  head (_layer_boundaries self) = Some first ->
  last (_layer_boundaries self) = Some final ->
  (exists result, get_properties_at self z = Ok result) /\
  (first <= z <= final ->
     exists (i : nat) (props : gmap string R),
       get_layer_index self z = Ok (Z.of_nat i) /\
       _layer_properties self !! i = Some props /\
       get_properties_at self z = Ok (Some props) /\
       forall key, key ∈ required_keys -> is_Some (props !! key)) /\
  (z < first \/ z > final -> get_properties_at self z = Ok None).
Proof.
  intros (Hincr & Hlen & Hkeys) Hfirst Hfinal.
  enough (Hcases :
    (first <= z <= final ->
       exists (i : nat) (props : gmap string R),
         get_layer_index self z = Ok (Z.of_nat i) /\
         _layer_properties self !! i = Some props /\
         get_properties_at self z = Ok (Some props) /\
         forall key, key ∈ required_keys -> is_Some (props !! key)) /\
    (z < first \/ z > final -> get_properties_at self z = Ok None)).
  { split; [|exact Hcases]. destruct Hcases as [Hinside Houtside].
    destruct (Rlt_dec z first) as [Hlow|Hlow].
    { exists None. apply Houtside. left. exact Hlow. }
    destruct (Rlt_dec final z) as [Hhigh|Hhigh].
    { exists None. apply Houtside. right. exact Hhigh. }
    destruct Hinside as (i & props & _ & _ & Hget & _); [lra|].
    exists (Some props). exact Hget. }
  split.
  - intros Hin.
    destruct (get_layer_index_inside self z first final
                (strictly_increasing_sorted _ Hincr) Hfirst Hfinal Hin)
      as (i & _ & Hi & (bi & Hbi & _) & _).
    destruct (lookup_lt_is_Some_2 (_layer_properties self) i) as [props Hprops].
    { rewrite Hlen. eapply lookup_lt_Some. exact Hbi. }
    exists i, props. split; [exact Hi|]. split; [exact Hprops|]. split.
    + unfold get_properties_at. rewrite Hi. cbn.
      destruct (Z.eqb_spec (Z.of_nat i) (-1)); [lia|].
      rewrite (py_index_nat _ _ _ Hprops). reflexivity.
    + apply Hkeys. eapply list_elem_of_lookup_2. exact Hprops.
  - intros Hout. unfold get_properties_at.
    rewrite (get_layer_index_outside self z first final Hfirst Hfinal Hout).
    reflexivity.
Qed.

Lemma stack_well_formed : well_formed Samples.stack.
Proof.
  split; [exact stack_increasing|]. split; [reflexivity|].
  intros props Hprops. cbn in Hprops.
  assert (props = Samples.clear) as ->.
  { repeat (apply elem_of_cons in Hprops as [->|Hprops]; [reflexivity|]).
    apply elem_of_nil in Hprops. contradiction. }
  intros key Hkey.
  pose proof (complete_record Samples.clear 1 1 (1 / 2) 0
                eq_refl eq_refl eq_refl eq_refl key Hkey) as Hsome.
  destruct (Samples.clear !! key); [eauto|contradiction].
Defined.

(** The test of the repository: depth 2 in a mesh with boundaries 0, 1, 2
    (here the last boundary). *)
Lemma get_properties_at_well_formed_witness :
  (exists result, get_properties_at Samples.stack 2 = Ok result) /\
  (0 <= 2 <= 2 ->
     exists (i : nat) (props : gmap string R),
       get_layer_index Samples.stack 2 = Ok (Z.of_nat i) /\
       _layer_properties Samples.stack !! i = Some props /\
       get_properties_at Samples.stack 2 = Ok (Some props) /\
       forall key, key ∈ required_keys -> is_Some (props !! key)) /\
  (2 < 0 \/ 2 > 2 -> get_properties_at Samples.stack 2 = Ok None).
Proof.
  apply (get_properties_at_well_formed Samples.stack 2 0 2).
  - exact stack_well_formed.
  - reflexivity.
  - reflexivity.
Defined.

Lemma filter_keeps_all (z : R) (l : list R) :
  Forall (fun b => b <= z) l -> filter (fun b => b <= z) l = l.
Proof.
  induction 1 as [|b l Hb Hl IH]; [reflexivity|].
  rewrite filter_cons_True by exact Hb. rewrite IH. reflexivity.
Qed.

Lemma filter_drops_all (z : R) (l : list R) :
  Forall (fun b => z < b) l -> filter (fun b => b <= z) l = [].
Proof.
  induction 1 as [|b l Hb Hl IH]; [reflexivity|].
  rewrite filter_cons_False by lra. exact IH.
Qed.

(** On sorted input the binary search counts the elements that are not
    greater than [z]. *)
Lemma searchsorted_right_counts (a : list R) (z : R) :
  sorted a ->
  searchsorted_right a z = length (filter (fun b => b <= z) a).
Proof.
  intros Hsorted.
  destruct (searchsorted_right_spec a z Hsorted) as (Hlen & Hlow & Hhigh).
  set (r := searchsorted_right a z) in *.
  rewrite <- (take_drop r a) at 1. rewrite filter_app.
  rewrite filter_keeps_all, filter_drops_all.
  - rewrite app_nil_r, length_take. lia.
  - apply Forall_lookup. intros i x Hx. rewrite lookup_drop in Hx.
    apply (Hhigh _ _ Hx). lia.
  - apply Forall_lookup. intros i x Hx.
    apply lookup_take_Some in Hx as [Hx Hi]. apply (Hlow _ _ Hx Hi).
Qed.

(** X3: between the first and the last boundary of a sorted mesh the layer
    index is the number of boundaries not greater than the depth, less
    one. *)
Theorem get_layer_index_counts (self : LayeredMesh) (z first final : R) :
  sorted (_layer_boundaries self) ->
  head (_layer_boundaries self) = Some first ->
  last (_layer_boundaries self) = Some final ->
  first <= z <= final ->
  get_layer_index self z
  = Ok (Z.of_nat (length (filter (fun b => (b <= z)%R)
                            (_layer_boundaries self))) - 1)%Z.
Proof.
  intros Hsorted Hfirst Hfinal Hin.
  destruct (get_layer_index_inside self z first final Hsorted Hfirst Hfinal Hin)
    as (i & Hr & Hi & _).
  rewrite Hi, <- (searchsorted_right_counts _ z Hsorted), Hr.
  f_equal. lia.
Qed.

Lemma get_layer_index_counts_witness :
  get_layer_index Samples.stack (3 / 2)
  = Ok (Z.of_nat (length (filter (fun b => (b <= 3 / 2)%R)
                            (_layer_boundaries Samples.stack))) - 1)%Z.
Proof.
  apply (get_layer_index_counts Samples.stack (3 / 2) 0 2).
  - exact (strictly_increasing_sorted _ stack_increasing).
  - reflexivity.
  - reflexivity.
  - lra.
Defined.

(** X4: a deeper point never lies in an earlier layer. *)
Theorem get_layer_index_monotone (self : LayeredMesh)
    (z1 z2 first final : R) :
  sorted (_layer_boundaries self) ->
  head (_layer_boundaries self) = Some first ->
  last (_layer_boundaries self) = Some final ->
  first <= z1 -> z1 <= z2 -> z2 <= final ->
  exists i1 i2 : nat,
    get_layer_index self z1 = Ok (Z.of_nat i1) /\
    get_layer_index self z2 = Ok (Z.of_nat i2) /\
    (i1 <= i2)%nat.
Proof.
  intros Hsorted Hfirst Hfinal H1 H12 H2.
  destruct (get_layer_index_inside self z1 first final Hsorted Hfirst Hfinal
              ltac:(lra)) as (i1 & _ & Hi1 & (b1 & Hb1 & Hle1) & _).
  destruct (get_layer_index_inside self z2 first final Hsorted Hfirst Hfinal
              ltac:(lra)) as (i2 & _ & Hi2 & _ & Hmax2).
  exists i1, i2. split; [exact Hi1|]. split; [exact Hi2|].
  apply (Hmax2 i1 b1 Hb1). lra.
Qed.

Lemma get_layer_index_monotone_witness :
  exists i1 i2 : nat,
    get_layer_index Samples.stack (1 / 2) = Ok (Z.of_nat i1) /\
    get_layer_index Samples.stack (3 / 2) = Ok (Z.of_nat i2) /\
    (i1 <= i2)%nat.
Proof.
  apply (get_layer_index_monotone Samples.stack (1 / 2) (3 / 2) 0 2).
  - exact (strictly_increasing_sorted _ stack_increasing).
  - reflexivity.
  - reflexivity.
  - lra.
  - lra.
  - lra.
Defined.

End MeshExtras.

(** ** Division *)

Module SamplerExtras.
Import HenyeyGreenstein SamplerFacts.

Lemma py_div_inv (x y q : R) : py_div x y = Ok q -> y <> 0 /\ q = x / y.
Proof.
  unfold py_div. case_bool_decide; [discriminate|]. intros [= <-]. done.
Qed.

End SamplerExtras.

(** ** The step primitives of the photon *)

Module PhotonExtras.
Import HenyeyGreenstein Photon Vocabulary.

#[local] Arguments py_index : simpl never.

Lemma trail_length (pos d : vec3) (steps : list R) :
  length (trail pos d steps) = length steps.
Proof.
  revert pos. induction steps as [|step_size rest IH]; intros pos;
    [reflexivity|]. cbn. rewrite IH. reflexivity.
Qed.

Lemma move_all_trail (steps : list R) (self : Photon) (pos : vec3) :
  last (path self) = Some pos ->
  move_all steps self
  = Ok (set_path (path self ++ trail pos (direction self) steps) self).
Proof.
  revert self pos. induction steps as [|step_size rest IH]; intros self pos Hpos.
  - cbn. rewrite app_nil_r. destruct self. reflexivity.
  - cbn [move_all trail]. unfold move.
    rewrite (py_index_last _ _ Hpos). cbn [mbind outcome_bind].
    erewrite IH; [|cbn [path set_path]; apply last_snoc].
    cbn [path set_path direction]. rewrite <- app_assoc. reflexivity.
Qed.

(** X7: on a photon whose path is not empty, with last position [pos], any
    series of [move] calls returns; it only extends the path, each new
    position being the one before it displaced by the direction times the
    step, one position per step; the position field, the direction, the
    weight and the alive flag stay as they were. *)
Theorem moves_extend (self : Photon) (pos : vec3) (steps : list R) :
  last (path self) = Some pos ->
  exists moved,
    move_all steps self = Ok moved /\
    path moved = path self ++ trail pos (direction self) steps /\
    length (path moved) = (length (path self) + length steps)%nat /\
    position moved = position self /\
    direction moved = direction self /\
    weight moved = weight self /\
    alive moved = alive self.
Proof.
  intros Hpos. eexists. split; [exact (move_all_trail steps self pos Hpos)|].
  cbn. split; [reflexivity|]. split; [|repeat split].
  rewrite length_app, trail_length. reflexivity.
Qed.

(** A new photon at the origin heading along z: steps 1 and 2. *)
Lemma moves_extend_witness :
  exists moved,
    move_all [1; 2] (Photon.init (Vec3 0 0 0) (Vec3 0 0 1)) = Ok moved /\
    path moved
    = [Vec3 0 0 0]
      ++ [vadd (Vec3 0 0 0) (vscale (Vec3 0 0 1) 1);
          vadd (vadd (Vec3 0 0 0) (vscale (Vec3 0 0 1) 1))
               (vscale (Vec3 0 0 1) 2)] /\
    length (path moved) = 3%nat /\
    position moved = Vec3 0 0 0 /\
    direction moved = Vec3 0 0 1 /\
    weight moved = 1 /\
    alive moved = true.
Proof.
  apply (moves_extend (Photon.init (Vec3 0 0 0) (Vec3 0 0 1)) (Vec3 0 0 0)
           [1; 2]).
  reflexivity.
Defined.

Lemma absorb_weight (self : Photon) (mu_a step_size : R) :
  weight (absorb self mu_a step_size)
  = weight self * exp (- mu_a * step_size).
Proof. unfold absorb. cbn. ring. Qed.

(** X9: with a non-negative weight, coefficient and step, [absorb] leaves
    the weight between 0 and what it was. *)
Theorem absorb_decays (self : Photon) (mu_a step_size : R) :
  0 <= weight self -> 0 <= mu_a -> 0 <= step_size ->
  0 <= weight (absorb self mu_a step_size) <= weight self.
Proof.
  intros Hw Ha Hs. rewrite absorb_weight.
  assert (0 < exp (- mu_a * step_size)) by apply exp_pos.
  assert (exp (- mu_a * step_size) <= 1).
  { rewrite <- exp_0. destruct (Req_dec (- mu_a * step_size) 0) as [->|Hne];
      [lra|]. apply Rlt_le, exp_increasing. nra. }
  split; nra.
Qed.

(** The strongly absorbing medium over the step 1, where the driver's own
    rescaling gives -1. *)
Lemma absorb_decays_witness :
  0 <= weight (absorb (init1 (Vec3 0 0 1)) 2 1) <= weight (init1 (Vec3 0 0 1)).
Proof.
  apply (absorb_decays (init1 (Vec3 0 0 1)) 2 1); cbn; lra.
Defined.

End PhotonExtras.

(** ** Bookkeeping of the driver *)

Module SimulationExtras.
Import Mesh Photon Simulation Vocabulary SimulationFacts.

#[local] Arguments py_index : simpl never.
#[local] Arguments py_setitem : simpl never.
#[local] Arguments py_getitem : simpl never.
#[local] Arguments get_layer_index : simpl never.
#[local] Arguments outside : simpl never.
#[local] Arguments free_path : simpl never.

Lemma py_index_last_inv {A} (l : list A) (x : A) :
  py_index l (-1) = Ok x -> last l = Some x.
Proof.
  unfold py_index. cbn [Z.ltb Z.compare].
  destruct (_ && _)%bool eqn:Hrange; [|discriminate].
  destruct (l !! _) eqn:Hget; [|discriminate]. intros [= <-].
  apply andb_prop in Hrange as [Hlo _]. apply Z.leb_le in Hlo.
  rewrite last_lookup, <- Hget. f_equal. lia.
Qed.

(** Reading and then writing the same place of a list or array. *)
Lemma py_setitem_inv {A} (l l' : list A) (i : Z) (x v : A) :
  py_index l i = Ok x -> py_setitem l i v = Ok l' ->
  exists k : nat, l !! k = Some x /\ l' = <[k := v]> l.
Proof.
  unfold py_index, py_setitem.
  destruct (_ && _)%bool; [|discriminate].
  destruct (l !! _) eqn:Hget; [|discriminate].
  intros [= <-] [= <-]. eauto.
Qed.

(** *** An empty mesh *)

(** X11: with no boundary at all, every lookup raises [IndexError], and so does
    every run of at least one photon, whatever the draws. *)
Theorem empty_mesh_raises (mesh : LayeredMesh) :
  _layer_boundaries mesh = [] ->
  (forall z, get_layer_index mesh z = Raise IndexError) /\
  (forall z, get_properties_at mesh z = Raise IndexError) /\
  (forall self draws,
     Simulation.mesh self = mesh -> (0 < num_photons self)%nat ->
     run self draws = Raise IndexError).
Proof.
  intros Hempty.
  assert (Hindex : forall z, get_layer_index mesh z = Raise IndexError).
  { intros z. unfold get_layer_index. rewrite Hempty. reflexivity. }
  split; [exact Hindex|]. split.
  - intros z. unfold get_properties_at. rewrite Hindex. reflexivity.
  - intros self draws Hmesh Hnum. unfold run.
    destruct (num_photons self) as [|n]; [lia|].
    cbn [run_photons]. unfold trial, trial_loop.
    rewrite while_alive_pass by reflexivity.
    unfold iteration. cbn [photon path init1 Photon.init].
    rewrite (py_index_last [initial_photon_direction self] _ eq_refl).
    cbn. unfold outside. rewrite Hmesh, Hempty. reflexivity.
Qed.

Lemma empty_mesh_raises_witness :
  (forall z, get_layer_index Mesh.init z = Raise IndexError) /\
  (forall z, get_properties_at Mesh.init z = Raise IndexError) /\
  (forall self draws,
     Simulation.mesh self = Mesh.init -> (0 < num_photons self)%nat ->
     run self draws = Raise IndexError).
Proof.
  apply (empty_mesh_raises Mesh.init). reflexivity.
Defined.

(** *** Draws and positions *)

Lemma reaches_suffix (mesh : LayeredMesh) (st st' : trial_state) :
  reaches mesh st st' -> exists used, rng st = used ++ rng st'.
Proof.
  induction 1 as [st|st st1 st' Halive Hpass Hreach [used Hused]].
  - exists []. reflexivity.
  - destruct (iteration_draws _ _ _ Hpass) as [[_ Hsame]|[u Hu]].
    + exists used. congruence.
    + exists (u :: used). rewrite Hu, Hused. reflexivity.
Qed.

(** X13: at every loop test of a trial the draws used so far are a prefix of
    the trial's random stream, the path is the starting path followed by the
    positions added so far, and the draws used are as many as the positions
    added. *)
Theorem draws_match_positions (mesh : LayeredMesh) (st st' : trial_state) :
  reaches mesh st st' ->
  exists used more,
    rng st = used ++ rng st' /\
    path (photon st') = path (photon st) ++ more /\
    length more = length used.
Proof.
  induction 1 as [st|st st1 st' Halive Hpass Hreach IH].
  - exists [], []. rewrite app_nil_r. repeat split.
  - destruct IH as (used & more & Hrng & Hpath & Hlen).
    apply iteration_inv in Hpass as [->|Hpass].
    + exists used, more. cbn in *. repeat split; assumption.
    + destruct Hpass as (pos & i & props & u & rest & mu_s & mu_a & slot
                         & prof' & _ & _ & _ & _ & Hu & _ & _ & _ & _ & _ & _
                         & ->).
      cbn in *. eexists (u :: used), (_ :: more).
      rewrite Hu, Hrng, Hpath, <- app_assoc. cbn.
      split; [reflexivity|]. split; [reflexivity|]. lia.
Qed.

Lemma draws_match_positions_witness :
  exists used more,
    [exp (-1)] = used ++ [] /\
    [Vec3 0 0 1; Vec3 (0 + 0 * 1) (0 + 0 * 1) (1 + 1 * 1)]
    = [Vec3 0 0 1] ++ more /\
    length more = length used.
Proof.
  pose proof (thick_first_pass Samples.clear (1 / 2) [] eq_refl eq_refl) as Hpass.
  cbv zeta in Hpass.
  apply (draws_match_positions (Samples.thick Samples.clear)
           (trial_start
              (Simulation.init (Samples.thick Samples.clear) 1
                 default_initial_photon_direction) [exp (-1)])
           (mkTrial
              (mkPhoton (Vec3 0 0 1) (Vec3 0 0 1)
                 [Vec3 0 0 1; Vec3 (0 + 0 * 1) (0 + 0 * 1) (1 + 1 * 1)]
                 (1 * (1 - 1 / 2 * 1)) true)
              [0 + 1 * (1 / 2) * 1] [])).
  eapply reaches_pass; [reflexivity|exact Hpass|apply reaches_here].
Defined.

(** *** Straight paths *)

Lemma ascending_snoc (path : list vec3) (pos new : vec3) :
  ascending path -> last path = Some pos -> vz pos <= vz new ->
  ascending (path ++ [new]).
Proof.
  intros Hpath Hpos Hnew i j p q Hi Hj Hij.
  rewrite last_lookup in Hpos.
  apply lookup_snoc_Some in Hi as [[Hilt Hi]|[-> <-]];
    apply lookup_snoc_Some in Hj as [[Hjlt Hj]|[-> <-]]; try lia.
  - apply (Hpath i j); assumption.
  - apply Rle_trans with (vz pos); [|exact Hnew].
    apply (Hpath i (pred (length path))); [assumption..|lia].
  - lra.
Qed.

(** A pass of a photon heading along z in a mesh of positive [mu_s], with
    draws below 1, leaves the path as it is or adds a position straight
    below the last one. *)
Lemma iteration_straight (mesh : LayeredMesh) (st st' : trial_state)
    (start : vec3) :
  physical mesh -> uniform (rng st) ->
  direction (photon st) = Vec3 0 0 1 ->
  straight start (path (photon st)) ->
  iteration mesh st = Ok st' ->
  straight start (path (photon st')) /\ uniform (rng st').
Proof.
  intros Hphys Huniform Hdir (Hhead & Hasc & Hxy) H.
  apply iteration_inv in H as [->|H].
  - cbn. split; [|exact Huniform]. split; [exact Hhead|].
    split; [exact Hasc|exact Hxy].
  - destruct H as (pos & i & props & u & rest & mu_s & mu_a & slot & prof'
                   & Hpos & _ & _ & Hprops & Hrng & Hu & Hs & _ & _ & _ & _
                   & ->).
    apply py_index_last_inv in Hpos. apply py_index_elem in Hprops.
    destruct (Hphys props Hprops) as [_ Hmu_s]. specialize (Hmu_s mu_s Hs).
    rewrite Hrng in Huniform.
    pose proof (Huniform u (list_elem_of_here _ _)) as Hu1.
    pose proof (free_path_nonneg u mu_s ltac:(lra) Hmu_s) as Hstep.
    assert (Hpos_in : pos ∈ path (photon st)).
    { rewrite last_lookup in Hpos. eapply list_elem_of_lookup_2. exact Hpos. }
    destruct (Hxy pos Hpos_in) as [Hx Hy].
    cbn. rewrite Hdir. split; [split; [|split]|].
    + destruct (path (photon st)); [discriminate|exact Hhead].
    + apply (ascending_snoc _ pos); [assumption..|]. cbn. lra.
    + intros p Hp. apply elem_of_app in Hp as [Hp|Hp]; [apply Hxy, Hp|].
      apply list_elem_of_singleton in Hp as ->. cbn. split; lra.
    + intros v Hv. apply Huniform, list_elem_of_further, Hv.
Qed.

Lemma reaches_straight (mesh : LayeredMesh) (st st' : trial_state)
    (start : vec3) :
  physical mesh -> reaches mesh st st' ->
  uniform (rng st) ->
  direction (photon st) = Vec3 0 0 1 ->
  straight start (path (photon st)) ->
  straight start (path (photon st')) /\ uniform (rng st').
Proof.
  intros Hphys.
  induction 1 as [st|st st1 st' Halive Hpass Hreach IH];
    intros Huniform Hdir Hstraight; [split; assumption|].
  destruct (iteration_straight _ _ _ _ Hphys Huniform Hdir Hstraight Hpass)
    as [Hs1 Hu1].
  apply IH; [exact Hu1| |exact Hs1].
  destruct (iteration_keeps _ _ _ Hpass) as (_ & Hd & _). congruence.
Qed.

Lemma start_straight (start : vec3) : straight start [start].
Proof.
  split; [reflexivity|]. split.
  - intros i j p q Hi Hj _.
    destruct i; [|discriminate]. destruct j; [|discriminate].
    injection Hi as <-. injection Hj as <-. lra.
  - intros p Hp. apply list_elem_of_singleton in Hp as ->. split; reflexivity.
Qed.

(** What a trial leaves behind, in a mesh of positive [mu_s] and with
    uniform draws. *)
Lemma trial_straight (self self' : MonteCarloSimulator)
    (draws draws' : list R) :
  physical (mesh self) -> uniform draws ->
  trial self draws = Ok (self', draws') ->
  exists recorded,
    straight (initial_photon_direction self) recorded /\
    self' = mkSimulator (mesh self) (num_photons self)
              (initial_photon_direction self)
              (photon_paths self ++ [recorded]) (absorption_profile self') /\
    uniform draws'.
Proof.
  intros Hphys Huniform Htrial.
  apply trial_inv in Htrial as (st & Hloop & -> & ->).
  apply while_alive_reaches in Hloop as [Hreach _].
  destruct (reaches_straight _ _ _ (initial_photon_direction self) Hphys Hreach)
    as [Hstraight Hu]; [exact Huniform|reflexivity|apply start_straight|].
  exists (path (photon st)). split; [exact Hstraight|]. split; [reflexivity|].
  exact Hu.
Qed.

Lemma run_photons_straight (n : nat) (self self' : MonteCarloSimulator)
    (draws draws' : list R) :
  physical (mesh self) -> uniform draws ->
  run_photons n self draws = Ok (self', draws') ->
  exists recorded,
    photon_paths self' = photon_paths self ++ recorded /\
    Forall (straight (initial_photon_direction self)) recorded.
Proof.
  revert self draws. induction n as [|n IH]; intros self draws Hphys Hu H.
  - injection H as <- <-. exists []. rewrite app_nil_r. split; [reflexivity|].
    constructor.
  - cbn in H. invert_bind H. destruct x as [self1 draws1].
    destruct (trial_straight _ _ _ _ Hphys Hu Hx) as (first & Hfirst & Hself1 & Hu1).
    apply IH in H as (recorded & Hpaths & Hall);
      [|rewrite Hself1; exact Hphys|exact Hu1].
    exists (first :: recorded). rewrite Hpaths, Hself1. cbn.
    rewrite <- app_assoc. split; [reflexivity|].
    constructor; [exact Hfirst|]. rewrite Hself1 in Hall. exact Hall.
Qed.

(** X14: in a mesh whose layers all have [mu_a >= 0] and [mu_s > 0], and with
    draws in [0, 1), every path that a completed run of a new simulator
    records begins at [initial_photon_direction], and the depth never
    decreases along it. *)
Theorem run_paths_descend (mesh : LayeredMesh) (n : nat) (start : vec3)
    (draws draws' : list R) (self' : MonteCarloSimulator) :
  physical mesh -> uniform draws ->
  run (Simulation.init mesh n start) draws = Ok (self', draws') ->
  Forall (fun path => head path = Some start /\ ascending path)
    (photon_paths self').
Proof.
  intros Hphys Hu Hrun. unfold run in Hrun.
  destruct (run_photons_straight n (Simulation.init mesh n start) self'
              draws draws' Hphys Hu Hrun) as (recorded & -> & Hall).
  cbn [photon_paths Simulation.init app].
  eapply Forall_impl; [exact Hall|].
  intros path (Hhead & Hup & _). split; [exact Hhead|exact Hup].
Qed.

(** *** A completed run with a real pass *)

Lemma stack_physical : physical Samples.stack.
Proof.
  intros p Hp. cbn in Hp.
  assert (p = Samples.clear) as ->.
  { repeat (apply elem_of_cons in Hp as [->|Hp]; [reflexivity|]).
    apply elem_of_nil in Hp. contradiction. }
  split; intros v Hv.
  - assert (Some v = Some (1 / 2)) as [= ->] by (rewrite <- Hv; reflexivity).
    lra.
  - assert (Some v = Some 1) as [= ->] by (rewrite <- Hv; reflexivity). lra.
Qed.

Lemma exp_minus_two : 0 < exp (-2) < 1.
Proof.
  split; [apply exp_pos|]. rewrite <- exp_0. apply exp_increasing. lra.
Qed.

Lemma uniform_one (u : R) : 0 <= u < 1 -> uniform [u].
Proof. intros Hu v Hv. apply list_elem_of_singleton in Hv as ->. exact Hu. Qed.

(** In the mesh with boundaries 0, 1, 2 the default photon starts at depth
    1; the draw [exp (-2)] takes it to depth 3, out of the mesh. *)
Lemma stack_run :
  run (Simulation.init Samples.stack 1 default_initial_photon_direction)
    [exp (-2)]
  = Ok (mkSimulator Samples.stack 1 (Vec3 0 0 1)
          [[Vec3 0 0 1; Vec3 (0 + 0 * 2) (0 + 0 * 2) (1 + 1 * 2)]]
          [0; 0 + 1 * (1 / 2) * 2],
        []).
Proof.
  assert (Hpath : - ln (exp (-2)) / 1 = 2) by (rewrite ln_exp; lra).
  assert (Hlayer : get_layer_index Samples.stack 1 = Ok 1%Z).
  { apply (MeshFacts.get_layer_index_layer Samples.stack 1 1 1 2);
      [|reflexivity..|lra].
    exact (MeshFacts.strictly_increasing_sorted _ MeshFacts.stack_increasing). }
  unfold run. cbn [num_photons Simulation.init run_photons].
  unfold trial, trial_loop. cbn [rng length].
  rewrite while_alive_pass by reflexivity.
  rewrite (iteration_inside Samples.stack _ (Vec3 0 0 1) 0 2 1 Samples.clear
             (exp (-2)) 1 (1 / 2) 0 []);
    [|reflexivity|reflexivity|reflexivity|cbn; lra|exact Hlayer|reflexivity
     |reflexivity|apply exp_minus_two|reflexivity|lra|reflexivity|reflexivity].
  rewrite Hpath. cbn [mbind outcome_bind].
  unfold advanced. cbn [photon weight alive path direction position init1
                          Photon.init default_direction].
  rewrite bool_decide_eq_false_2 by (unfold default_threshold; lra).
  cbn [negb andb].
  rewrite while_alive_pass by reflexivity.
  rewrite (iteration_escape Samples.stack _
             (vadd (Vec3 0 0 1) (vscale (Vec3 0 0 1) 2)) 0 2);
    [|reflexivity|reflexivity|reflexivity|right; cbn; lra].
  cbn [mbind outcome_bind]. rewrite while_alive_done by reflexivity.
  reflexivity.
Qed.

Lemma run_paths_descend_witness :
  Forall (fun path =>
            head path = Some default_initial_photon_direction /\
            ascending path)
    [[Vec3 0 0 1; Vec3 (0 + 0 * 2) (0 + 0 * 2) (1 + 1 * 2)]].
Proof.
  apply (run_paths_descend Samples.stack 1 default_initial_photon_direction
           [exp (-2)] []
           (mkSimulator Samples.stack 1 (Vec3 0 0 1)
              [[Vec3 0 0 1; Vec3 (0 + 0 * 2) (0 + 0 * 2) (1 + 1 * 2)]]
              [0; 0 + 1 * (1 / 2) * 2])
           stack_physical).
  - apply uniform_one. pose proof exp_minus_two. lra.
  - exact stack_run.
Defined.

(** *** What a run keeps *)

Lemma iteration_profile_length (mesh : LayeredMesh) (st st' : trial_state) :
  iteration mesh st = Ok st' -> length (profile st') = length (profile st).
Proof.
  intros H. apply iteration_inv in H as [->|H]; [reflexivity|].
  destruct H as (pos & i & props & u & rest & mu_s & mu_a & slot & prof'
                 & _ & _ & _ & _ & _ & _ & _ & _ & _ & Hslot & Hset & ->).
  destruct (py_setitem_inv _ _ _ _ _ Hslot Hset) as (k & _ & ->).
  cbn. apply length_insert.
Qed.

Lemma reaches_profile_length (mesh : LayeredMesh) (st st' : trial_state) :
  reaches mesh st st' -> length (profile st') = length (profile st).
Proof.
  induction 1 as [st|st st1 st' Halive Hpass Hreach IH]; [reflexivity|].
  rewrite IH. apply (iteration_profile_length mesh). exact Hpass.
Qed.

Lemma trial_keeps (self self' : MonteCarloSimulator) (draws draws' : list R) :
  trial self draws = Ok (self', draws') ->
  mesh self' = mesh self /\
  num_photons self' = num_photons self /\
  initial_photon_direction self' = initial_photon_direction self /\
  length (absorption_profile self') = length (absorption_profile self) /\
  exists used, draws = used ++ draws'.
Proof.
  intros Htrial. apply trial_inv in Htrial as (st & Hloop & -> & ->).
  apply while_alive_reaches in Hloop as [Hreach _]. cbn.
  repeat (split; [reflexivity|]). split.
  - apply (reaches_profile_length _ _ _ Hreach).
  - exact (reaches_suffix _ _ _ Hreach).
Qed.

Lemma run_photons_keeps (n : nat) (self self' : MonteCarloSimulator)
    (draws draws' : list R) :
  run_photons n self draws = Ok (self', draws') ->
  mesh self' = mesh self /\
  num_photons self' = num_photons self /\
  initial_photon_direction self' = initial_photon_direction self /\
  length (absorption_profile self') = length (absorption_profile self) /\
  exists used, draws = used ++ draws'.
Proof.
  revert self draws. induction n as [|n IH]; intros self draws H.
  - injection H as <- <-. repeat (split; [reflexivity|]). exists [].
    reflexivity.
  - cbn in H. invert_bind H. destruct x as [self1 draws1].
    apply trial_keeps in Hx as (Hm1 & Hn1 & Hd1 & Hl1 & (used1 & ->)).
    apply IH in H as (Hm & Hn & Hd & Hl & (used & ->)).
    repeat (split; [congruence|]). exists (used1 ++ used).
    rewrite app_assoc. reflexivity.
Qed.

(** X15: a completed run leaves the mesh, the photon count and the initial
    direction as they were and the absorption profile at its length, and
    the draws it leaves are a tail of the draws it was given. *)
Theorem run_keeps_configuration (self self' : MonteCarloSimulator)
    (draws draws' : list R) :
  run self draws = Ok (self', draws') ->
  mesh self' = mesh self /\
  num_photons self' = num_photons self /\
  initial_photon_direction self' = initial_photon_direction self /\
  length (absorption_profile self') = length (absorption_profile self) /\
  exists used, draws = used ++ draws'.
Proof.
  intros Hrun. unfold run in Hrun.
  exact (run_photons_keeps _ _ _ _ _ Hrun).
Qed.

Lemma run_keeps_configuration_witness :
  Samples.stack = Samples.stack /\
  1%nat = 1%nat /\
  Vec3 0 0 1 = default_initial_photon_direction /\
  length [0; 0 + 1 * (1 / 2) * 2] = length (zeros_like_init [0; 1; 2]) /\
  exists used, [exp (-2)] = used ++ [].
Proof.
  exact (run_keeps_configuration _ _ _ _ stack_run).
Defined.

(** *** Running again *)

Lemma outcome_bind_assoc {A B C} (c : outcome A) (f : A -> outcome B)
    (g : B -> outcome C) :
  (c ≫= f) ≫= g = c ≫= (fun a => f a ≫= g).
Proof. destruct c; reflexivity. Qed.

Lemma run_photons_add (n m : nat) (self : MonteCarloSimulator)
    (draws : list R) :
  run_photons (n + m) self draws
  = run_photons n self draws ≫= (fun '(s, d) => run_photons m s d).
Proof.
  revert self draws. induction n as [|n IH]; intros self draws; [reflexivity|].
  cbn [Nat.add run_photons]. rewrite outcome_bind_assoc.
  destruct (trial self draws) as [[self1 draws1]| | |]; try reflexivity.
  cbn. apply IH.
Qed.

(** X16: [run] does not start afresh: the trials of [n + m] photons are the
    trials of [n] photons followed by those of [m] on what they left, and
    calling [run] a second time on the same simulator carries on as one run
    of twice the photons would, adding to the same paths and profile. *)
Theorem run_again (self : MonteCarloSimulator) (draws : list R) :
  (forall n m,
     run_photons (n + m) self draws
     = run_photons n self draws ≫= (fun '(s, d) => run_photons m s d)) /\
  run self draws ≫= (fun '(s, d) => run s d)
  = run_photons (num_photons self + num_photons self) self draws.
Proof.
  split; [intros n m; apply run_photons_add|].
  rewrite run_photons_add. unfold run.
  destruct (run_photons (num_photons self) self draws)
    as [[s d]| | |] eqn:Hrun; try reflexivity.
  cbn. apply run_photons_keeps in Hrun as (_ & -> & _). reflexivity.
Qed.

(** *** Deposits *)

Lemma insert_above (l : list R) (k : nat) (x v : R) :
  l !! k = Some x -> x <= v -> Forall2 Rle l (<[k := v]> l).
Proof.
  revert k. induction l as [|y l IH]; intros [|k] Hk Hle; try discriminate.
  - injection Hk as ->. constructor; [exact Hle|].
    apply Forall_Forall2_diag, Forall_forall. intros; lra.
  - change (<[S k := v]> (y :: l)) with (y :: <[k := v]> l).
    constructor; [lra|]. apply IH; assumption.
Qed.

Lemma iteration_deposit (mesh : LayeredMesh) (st st' : trial_state) :
  physical mesh -> uniform (rng st) -> 0 <= weight (photon st) ->
  iteration mesh st = Ok st' ->
  Forall2 Rle (profile st) (profile st').
Proof.
  intros Hphys Huniform Hw H. apply iteration_inv in H as [->|H].
  - cbn. apply Forall_Forall2_diag, Forall_forall. intros; lra.
  - destruct H as (pos & i & props & u & rest & mu_s & mu_a & slot & prof'
                   & _ & _ & _ & Hprops & Hrng & Hu & Hs & _ & Ha & Hslot
                   & Hset & ->).
    destruct (py_setitem_inv _ _ _ _ _ Hslot Hset) as (k & Hk & ->).
    apply py_index_elem in Hprops.
    destruct (Hphys props Hprops) as [Hmu_a Hmu_s].
    specialize (Hmu_a mu_a Ha). specialize (Hmu_s mu_s Hs).
    rewrite Hrng in Huniform.
    pose proof (Huniform u (list_elem_of_here _ _)) as Hu1.
    pose proof (free_path_nonneg u mu_s ltac:(lra) Hmu_s) as Hstep.
    cbn. apply (insert_above _ _ _ _ Hk).
    assert (0 <= weight (photon st) * mu_a) by (apply Rmult_le_pos; lra).
    assert (0 <= weight (photon st) * mu_a * (- ln u / mu_s))
      by (apply Rmult_le_pos; lra).
    lra.
Qed.

(** X17: in a mesh whose layers all have [mu_a >= 0] and [mu_s > 0], with
    uniform draws and as long as every pass samples a free path with
    [mu_a * step <= 1], no entry of the absorption profile ever goes down
    during a trial. *)
Theorem deposits_accumulate (self : MonteCarloSimulator) (draws : list R)
    (st : trial_state) :
  physical (mesh self) -> uniform draws ->
  reaches_short (mesh self) (trial_start self draws) st ->
  Forall2 Rle (absorption_profile self) (profile st).
Proof.
  intros Hphys Huniform Hreach.
  change (absorption_profile self)
    with (profile (trial_start self draws)).
  assert (Hw : 0 <= weight (photon (trial_start self draws)) <= 1)
    by (cbn; lra).
  assert (Hu : uniform (rng (trial_start self draws))) by exact Huniform.
  clear Huniform. revert Hw Hu.
  induction Hreach as [st|st st1 st' Halive Hshort Hpass Hreach IH];
    intros Hw Hu.
  - apply Forall_Forall2_diag, Forall_forall. intros; lra.
  - destruct (iteration_weight _ _ _ Hphys Hu Hshort Hw Hpass) as [Hw1 Hu1].
    eapply Forall2_trans; cycle 1.
    + apply (iteration_deposit (mesh self) st st1 Hphys Hu); [lra|exact Hpass].
    + apply IH; [lra|exact Hu1].
    + intros x y z Hxy Hyz. cbv beta in *. lra.
Qed.

Lemma deposits_accumulate_witness :
  Forall2 Rle [0] [0 + 1 * (1 / 2) * 1].
Proof.
  pose proof (thick_first_pass Samples.clear (1 / 2) [] eq_refl eq_refl) as Hpass.
  cbv zeta in Hpass.
  apply (deposits_accumulate
           (Simulation.init (Samples.thick Samples.clear) 1
              default_initial_photon_direction)
           [exp (-1)]
           (mkTrial
              (mkPhoton (Vec3 0 0 1) (Vec3 0 0 1)
                 [Vec3 0 0 1; Vec3 (0 + 0 * 1) (0 + 0 * 1) (1 + 1 * 1)]
                 (1 * (1 - 1 / 2 * 1)) true)
              [0 + 1 * (1 / 2) * 1] [])
           (sample_physical Samples.clear 1 (1 / 2) eq_refl eq_refl
              ltac:(lra) ltac:(lra))).
  - apply uniform_one. pose proof exp_minus_one. lra.
  - eapply short_pass; [reflexivity| |exact Hpass|apply short_here].
    intros pos i props u rest mu_s mu_a _ _ Hprops Hrng Hs Ha.
    apply py_index_elem in Hprops. cbn in Hprops, Hrng.
    assert (props = Samples.clear) as ->.
    { repeat (apply elem_of_cons in Hprops as [->|Hprops]; [reflexivity|]).
      apply elem_of_nil in Hprops. contradiction. }
    injection Hrng as <- <-.
    assert (Some mu_s = Some 1) as [= ->] by (rewrite <- Hs; reflexivity).
    assert (Some mu_a = Some (1 / 2)) as [= ->] by (rewrite <- Ha; reflexivity).
    rewrite unit_free_path. lra.
Defined.

End SimulationExtras.

(** ** The figures of the analysis *)

Module AnalysisFacts.
Import Mesh Photon Simulation Analysis Vocabulary SimulationFacts
  SimulationExtras.

#[local] Arguments py_index : simpl never.
#[local] Arguments HenyeyGreenstein.py_div : simpl never.

(** X18: before any trial has been recorded the rates are 0/0: the method
    raises [ZeroDivisionError], whatever the mesh. *)
Theorem rates_need_paths (simulator : MonteCarloSimulator) :
  photon_paths simulator = [] ->
  reflection_transmission simulator = Raise ZeroDivisionError.
Proof.
  intros Hnone. unfold reflection_transmission. rewrite Hnone. cbn.
  rewrite SamplerFacts.py_div_zero by reflexivity. reflexivity.
Qed.

Lemma rates_need_paths_witness :
  reflection_transmission
    (Simulation.init Samples.stack 100 default_initial_photon_direction)
  = Raise ZeroDivisionError.
Proof.
  apply (rates_need_paths
           (Simulation.init Samples.stack 100 default_initial_photon_direction)).
  reflexivity.
Defined.




Lemma straight_last (start : vec3) (path : list vec3) :
  straight start path ->
  exists p, last path = Some p /\ vz start <= vz p.
Proof.
  intros (Hhead & Hasc & _).
  destruct (last path) as [p|] eqn:Hp;
    [|apply last_None in Hp; subst path; discriminate].
  exists p. split; [reflexivity|].
  rewrite head_lookup in Hhead. rewrite last_lookup in Hp.
  apply (Hasc 0%nat (pred (length path))); [assumption..|lia].
Qed.

Lemma count_no_reflection (mesh : LayeredMesh) (first : R) (start : vec3)
    (paths : list (list vec3)) :
  head (_layer_boundaries mesh) = Some first ->
  first <= vz start ->
  Forall (straight start) paths ->
  count_paths (is_reflected mesh) paths = Ok 0%nat.
Proof.
  intros Hfirst Hstart. induction 1 as [|path paths Hpath Hpaths IH];
    [reflexivity|].
  destruct (straight_last _ _ Hpath) as (p & Hp & Hz).
  cbn [count_paths]. rewrite IH. unfold is_reflected.
  rewrite (py_index_last _ _ Hp), (py_index_head _ _ Hfirst). cbn.
  rewrite bool_decide_eq_false_2 by lra. reflexivity.
Qed.

(** X20: the driver never sends a photon back: in a mesh whose layers all
    have [mu_a >= 0] and [mu_s > 0], with uniform draws and an initial
    vector whose depth is at least the first boundary, a completed run
    leaves no reflected path, and the reflection rate, when the method
    returns one, is 0. *)
Theorem run_never_reflects (mesh : LayeredMesh) (n : nat) (start : vec3)
    (draws draws' : list R) (self' : MonteCarloSimulator) (first : R) :
  physical mesh -> uniform draws ->
  head (_layer_boundaries mesh) = Some first ->
  first <= vz start ->
  run (Simulation.init mesh n start) draws = Ok (self', draws') ->
  count_paths (is_reflected (Simulation.mesh self')) (photon_paths self')
  = Ok 0%nat /\
  forall reflection_rate transmission_rate,
    reflection_transmission self' = Ok (reflection_rate, transmission_rate) ->
    reflection_rate = 0.
Proof.
  intros Hphys Hu Hfirst Hstart Hrun. unfold run in Hrun.
  destruct (run_photons_straight n (Simulation.init mesh n start) self'
              draws draws' Hphys Hu Hrun) as (recorded & Hpaths & Hall).
  apply run_photons_keeps in Hrun as (Hmesh & _).
  cbn in Hpaths, Hall, Hmesh.
  assert (Hcount : count_paths (is_reflected (Simulation.mesh self'))
                     (photon_paths self') = Ok 0%nat).
  { rewrite Hmesh, Hpaths.
    apply (count_no_reflection mesh first start); assumption. }
  split; [exact Hcount|].
  intros r t Hrates. unfold reflection_transmission in Hrates.
  rewrite Hcount in Hrates. cbn in Hrates.
  invert_bind Hrates. invert_bind Hrates. invert_bind Hrates.
  injection Hrates as <- _.
  apply SamplerExtras.py_div_inv in Hx0 as [_ ->]. cbn. lra.
Qed.

Lemma run_never_reflects_witness :
  count_paths (is_reflected Samples.stack)
    [[Vec3 0 0 1; Vec3 (0 + 0 * 2) (0 + 0 * 2) (1 + 1 * 2)]] = Ok 0%nat.
Proof.
  apply (run_never_reflects Samples.stack 1 default_initial_photon_direction
           [exp (-2)] []
           (mkSimulator Samples.stack 1 (Vec3 0 0 1)
              [[Vec3 0 0 1; Vec3 (0 + 0 * 2) (0 + 0 * 2) (1 + 1 * 2)]]
              [0; 0 + 1 * (1 / 2) * 2])
           0 stack_physical).
  - apply uniform_one. pose proof exp_minus_two. lra.
  - reflexivity.
  - cbn. lra.
  - exact stack_run.
Defined.

(** *** Penetration depth *)

Lemma deepest_fold (rest : list vec3) (best : vec3) :
  let found :=
    foldl (fun best q => if bool_decide (vz q > vz best) then q else best)
      best rest in
  (found = best \/ found ∈ rest) /\
  vz best <= vz found /\
  forall q, q ∈ rest -> vz q <= vz found.
Proof.
  revert best. induction rest as [|q rest IH]; intros best; cbn.
  - split; [left; reflexivity|]. split; [lra|].
    intros q Hq. apply elem_of_nil in Hq. contradiction.
  - case_bool_decide as Hgt.
    + destruct (IH q) as (Hin & Hge & Hmax). split; [|split].
      * right. destruct Hin as [->|Hin];
          [apply list_elem_of_here|apply list_elem_of_further, Hin].
      * lra.
      * intros p Hp. apply elem_of_cons in Hp as [->|Hp]; [lra|auto].
    + destruct (IH best) as (Hin & Hge & Hmax). split; [|split].
      * destruct Hin as [->|Hin]; [left; reflexivity|].
        right. apply list_elem_of_further, Hin.
      * lra.
      * intros p Hp. apply elem_of_cons in Hp as [->|Hp]; [lra|auto].
Qed.

Lemma deepest_nonempty (path : list vec3) :
  path <> [] ->
  exists p, deepest path = Ok p /\ p ∈ path /\
            forall q, q ∈ path -> vz q <= vz p.
Proof.
  intros Hsome.
  destruct path as [|first rest]; [contradiction|]. cbn [deepest].
  destruct (deepest_fold rest first) as (Hin & Hge & Hmax).
  eexists. split; [reflexivity|]. split.
  - destruct Hin as [->|Hin];
      [apply list_elem_of_here|apply list_elem_of_further, Hin].
  - intros q Hq. apply elem_of_cons in Hq as [->|Hq]; [exact Hge|auto].
Qed.

(** X21: on an empty path [deepest] raises [ValueError]; on any other path
    it returns a position of the path that no position of the path lies
    below. *)
Theorem deepest_is_maximal (path : list vec3) :
  (path = [] -> deepest path = Raise ValueError) /\
  (path <> [] ->
   exists p, deepest path = Ok p /\ p ∈ path /\
             forall q, q ∈ path -> vz q <= vz p).
Proof.
  split.
  - intros ->. reflexivity.
  - apply deepest_nonempty.
Qed.

Lemma deepest_is_maximal_witness :
  exists p,
    deepest [Vec3 0 0 1; Vec3 0 0 3; Vec3 0 0 2] = Ok p /\
    p ∈ [Vec3 0 0 1; Vec3 0 0 3; Vec3 0 0 2] /\
    forall q, q ∈ [Vec3 0 0 1; Vec3 0 0 3; Vec3 0 0 2] -> vz q <= vz p.
Proof.
  apply (proj2 (deepest_is_maximal [Vec3 0 0 1; Vec3 0 0 3; Vec3 0 0 2])).
  discriminate.
Defined.

Lemma deepest_of_ascending (path : list vec3) (final : vec3) :
  ascending path -> last path = Some final ->
  exists p, deepest path = Ok p /\ vz p = vz final.
Proof.
  intros Hasc Hfinal.
  destruct (deepest_nonempty path) as (p & Hp & Hin & Hmax).
  { intros ->. discriminate. }
  exists p. split; [exact Hp|].
  rewrite last_lookup in Hfinal.
  apply list_elem_of_lookup_1 in Hin as [i Hi].
  pose proof (Hasc i (pred (length path)) p final Hi Hfinal) as Hle.
  pose proof (Hmax final (list_elem_of_lookup_2 _ _ _ Hfinal)) as Hge.
  apply lookup_lt_Some in Hi. apply Rle_antisym; [apply Hle; lia|exact Hge].
Qed.

Lemma max_depths_straight (start : vec3) (paths : list (list vec3)) :
  Forall (straight start) paths ->
  max_depths paths
  = Ok ((fun path => vz (default start (last path))) <$> paths).
Proof.
  induction 1 as [|path paths Hpath Hpaths IH]; [reflexivity|].
  destruct (straight_last _ _ Hpath) as (final & Hfinal & _).
  destruct Hpath as (_ & Hasc & _).
  destruct (deepest_of_ascending path final Hasc Hfinal) as (p & Hp & Hz).
  cbn [max_depths]. rewrite Hp, IH. cbn. rewrite Hfinal, Hz. reflexivity.
Qed.

(** X22: since no photon of the driver ever turns back, the depths handed to
    the penetration histogram after a completed run are the final depths of
    the paths (mesh with [mu_a >= 0] and [mu_s > 0], uniform draws). *)
Theorem run_max_depths_are_final (mesh : LayeredMesh) (n : nat)
    (start : vec3) (draws draws' : list R) (self' : MonteCarloSimulator) :
  physical mesh -> uniform draws ->
  run (Simulation.init mesh n start) draws = Ok (self', draws') ->
  max_depths (photon_paths self')
  = Ok ((fun path => vz (default start (last path))) <$> photon_paths self').
Proof.
  intros Hphys Hu Hrun. unfold run in Hrun.
  destruct (run_photons_straight n (Simulation.init mesh n start) self'
              draws draws' Hphys Hu Hrun) as (recorded & Hpaths & Hall).
  cbn in Hpaths, Hall. rewrite Hpaths.
  apply max_depths_straight. exact Hall.
Qed.

Lemma run_max_depths_are_final_witness :
  max_depths [[Vec3 0 0 1; Vec3 (0 + 0 * 2) (0 + 0 * 2) (1 + 1 * 2)]]
  = Ok [1 + 1 * 2].
Proof.
  apply (run_max_depths_are_final Samples.stack 1
           default_initial_photon_direction [exp (-2)] []
           (mkSimulator Samples.stack 1 (Vec3 0 0 1)
              [[Vec3 0 0 1; Vec3 (0 + 0 * 2) (0 + 0 * 2) (1 + 1 * 2)]]
              [0; 0 + 1 * (1 / 2) * 2])
           stack_physical).
  - apply uniform_one. pose proof exp_minus_two. lra.
  - exact stack_run.
Defined.

End AnalysisFacts.

(** ** A pass inside the mesh *)

Module PassExtras.
Import Mesh Photon Simulation Vocabulary MeshFacts SimulationFacts.

#[local] Arguments py_index : simpl never.
#[local] Arguments get_layer_index : simpl never.

(** X23: in a well-formed mesh whose layers all have [mu_s > 0], with a
    profile that has one entry less than there are boundaries (the length
    [__init__] gives it) and a draw above 0, a pass at a depth that is at
    least the first boundary and less than the last completes: it takes the
    draw [u], appends the position [-ln u / mu_s] further along the
    direction, rescales the weight by [1 - mu_a * step], and leaves the
    photon alive exactly when it was alive and its weight before the pass
    was not below 0.001; the profile keeps its length, and no entry but the
    one of the layer changes. *)
Theorem pass_completes_inside (mesh : LayeredMesh) (st : trial_state)
    (pos : vec3) (first final u : R) (rest : list R) :
  well_formed mesh -> scattering mesh ->
  head (_layer_boundaries mesh) = Some first ->
  last (_layer_boundaries mesh) = Some final ->
  length (profile st) = (length (_layer_boundaries mesh) - 1)%nat ->
  last (path (photon st)) = Some pos ->
  first <= vz pos < final ->
  rng st = u :: rest -> 0 < u ->
  exists (i : nat) props mu_s mu_a st',
    get_layer_index mesh (vz pos) = Ok (Z.of_nat i) /\
    _layer_properties mesh !! i = Some props /\
    props !! "mu_s"%string = Some mu_s /\
    props !! "mu_a"%string = Some mu_a /\
    iteration mesh st = Ok st' /\
    photon st'
    = mkPhoton (position (photon st)) (direction (photon st))
        (path (photon st)
         ++ [vadd pos (vscale (direction (photon st)) (- ln u / mu_s))])
        (weight (photon st) * (1 - mu_a * (- ln u / mu_s)))
        (alive (photon st)
         && negb (bool_decide (weight (photon st) < 1 / 1000))) /\
    rng st' = rest /\
    length (profile st') = length (profile st) /\
    forall j : nat, j <> i -> profile st' !! j = profile st !! j.
Proof.
  intros (Hincr & Hlen & Hkeys) Hscat Hfirst Hfinal Hprofile Hpos Hin Hrng Hu.
  pose proof (strictly_increasing_sorted _ Hincr) as Hsorted.
  destruct (get_layer_index_inside mesh (vz pos) first final Hsorted Hfirst
              Hfinal ltac:(lra)) as (i & _ & Hi & (bi & Hbi & Hle) & Hmax).
  assert (Hlt : (S i < length (_layer_boundaries mesh))%nat).
  { pose proof (lookup_lt_Some _ _ _ Hbi) as Hilt.
    destruct (Nat.eq_dec (S i) (length (_layer_boundaries mesh))) as [Heq|];
      [|lia].
    rewrite last_lookup, <- Heq in Hfinal. cbn in Hfinal.
    rewrite Hbi in Hfinal. injection Hfinal as <-. lra. }
  destruct (lookup_lt_is_Some_2 (_layer_properties mesh) i) as [props Hprops];
    [lia|].
  destruct (lookup_lt_is_Some_2 (profile st) i) as [slot Hslot]; [lia|].
  pose proof (list_elem_of_lookup_2 _ _ _ Hprops) as Hprops_in.
  destruct (Hkeys props Hprops_in "mu_s"%string) as [mu_s Hs].
  { unfold required_keys. apply elem_of_cons. right. apply elem_of_cons. left.
    reflexivity. }
  destruct (Hkeys props Hprops_in "mu_a"%string) as [mu_a Ha].
  { unfold required_keys. do 2 (apply elem_of_cons; right).
    apply elem_of_cons. left. reflexivity. }
  pose proof (Hscat props Hprops_in mu_s Hs) as Hmu_s.
  exists i, props, mu_s, mu_a. eexists.
  repeat (split; [assumption|]).
  split.
  { apply (iteration_inside mesh st pos first final i props u mu_s mu_a slot
             rest); try assumption; lra. }
  cbn [photon rng profile]. split; [reflexivity|]. split; [reflexivity|].
  split; [apply length_insert|].
  intros j Hj. apply list_lookup_insert_ne. congruence.
Qed.

(** The default photon in the mesh with boundaries 0, 1, 2, draw
    [exp (-2)]. *)
Lemma pass_completes_inside_witness :
  exists (i : nat) props mu_s mu_a st',
    get_layer_index Samples.stack 1 = Ok (Z.of_nat i) /\
    _layer_properties Samples.stack !! i = Some props /\
    props !! "mu_s"%string = Some mu_s /\
    props !! "mu_a"%string = Some mu_a /\
    iteration Samples.stack
      (mkTrial (init1 (Vec3 0 0 1)) [0; 0] [exp (-2)])
    = Ok st' /\
    photon st'
    = mkPhoton (Vec3 0 0 1) (Vec3 0 0 1)
        ([Vec3 0 0 1]
         ++ [vadd (Vec3 0 0 1)
               (vscale (Vec3 0 0 1) (- ln (exp (-2)) / mu_s))])
        (1 * (1 - mu_a * (- ln (exp (-2)) / mu_s)))
        (true && negb (bool_decide (1 < 1 / 1000))) /\
    rng st' = [] /\
    length (profile st') = 2%nat /\
    forall j : nat, j <> i -> profile st' !! j = [0; 0] !! j.
Proof.
  apply (pass_completes_inside Samples.stack
           (mkTrial (init1 (Vec3 0 0 1)) [0; 0] [exp (-2)])
           (Vec3 0 0 1) 0 2 (exp (-2)) []).
  - exact MeshExtras.stack_well_formed.
  - intros props Hprops mu_s Hs.
    destruct (SimulationExtras.stack_physical props Hprops) as [_ Hpos].
    exact (Hpos mu_s Hs).
  - reflexivity.
  - reflexivity.
  - reflexivity.
  - reflexivity.
  - cbn. lra.
  - reflexivity.
  - apply SimulationExtras.exp_minus_two.
Defined.

End PassExtras.
